(** * A shallow embedding of [lib/reset-event.js]

    The reset event (a manual-reset gate for callback-driven code) is
    modelled as a state record threaded through a small state-and-exception
    monad.  JavaScript objects that are shared by reference (the tokens,
    which the queue, the caller and the timer closures all alias) live in an
    explicit heap; the timer facility of the host ([setTimeout] /
    [clearTimeout]) is a finite map of pending timers together with an
    explicit [fire] event. *)

From Stdlib Require Import ZArith String Bool Lia.
From stdpp Require Import base option list gmap strings sorting.

(** ** JavaScript values used by the module *)

(** Numbers.  Finite numbers are integers here (queue bounds, release counts
    and delays are counts); the three non-finite doubles are kept because the
    defaults are [Infinity] and because arithmetic on [undefined] is [NaN].
    Arithmetic on [Fin] is exact.  The code's numbers are doubles, whose
    [- 1] and [+ 1] are exact on the safe integers (absolute value below
    2^53, see [Js.safe_integer]) and round beyond them; a statement that
    gives the value a finite budget takes carries that bound as a
    hypothesis. *)
Inductive num : Type :=
| Fin (z : Z)
| PInf
| NInf
| NaN.

(** What a property or an argument holds: [undefined] (also a property that
    is absent) or a number.  Strings and other values are not modelled.  For
    [maxQueueSize], which is only used behind a [typeof] test,
    [VUndefined] behaves as every value that is not a number does. *)
Inductive value : Type :=
| VUndefined
| VNum (n : num).

Module Js.

(** [ToNumber] on the values above. *)
Definition to_number (v : value) : num :=
  match v with
  | VUndefined => NaN
  | VNum n => n
  end.

(** The safe integers, [Number.MIN_SAFE_INTEGER .. Number.MAX_SAFE_INTEGER]. *)
Definition max_safe_integer : Z := 2 ^ 53 - 1.

Definition safe_integer (z : Z) : bool :=
  (- max_safe_integer <=? z)%Z && (z <=? max_safe_integer)%Z.

(** [n - 1] and [n + 1], exact; they are the code's on the safe integers and
    on the non-finite numbers. *)
Definition pred (n : num) : num :=
  match n with
  | Fin z => Fin (z - 1)
  | other => other
  end.

Definition succ (n : num) : num :=
  match n with
  | Fin z => Fin (z + 1)
  | other => other
  end.

(** [a > b]; every comparison with [NaN] is false. *)
Definition gt (a b : num) : bool :=
  match a, b with
  | NaN, _ | _, NaN => false
  | Fin x, Fin y => (y <? x)%Z
  | PInf, PInf => false
  | PInf, _ => true
  | _, PInf => false
  | NInf, _ => false
  | Fin _, NInf => true
  end.

(** [a <= b], used in statements only. *)
Definition le (a b : num) : bool :=
  match a, b with
  | NaN, _ | _, NaN => false
  | Fin x, Fin y => (x <=? y)%Z
  | NInf, _ => true
  | _, PInf => true
  | _, NInf => false
  | PInf, Fin _ => false
  end.

(** [v--] and [v++] as statements: the new value of the property. *)
Definition decr (v : value) : value := VNum (pred (to_number v)).
Definition incr (v : value) : value := VNum (succ (to_number v)).

(** A budget from which [n + 1] decrements, with the increments that undo
    some of them, only ever meet safe integers: it is not finite, or it and
    the number [n + 1] below it are safe.  On such a budget [decr] and
    [incr] are what the code's [--] and [++] compute. *)
Definition exact_budget (v : value) (n : nat) : bool :=
  match to_number v with
  | Fin z => safe_integer z && safe_integer (z - Z.of_nat n - 1)
  | _ => true
  end.

(** [v > 0] and [v === 0]. *)
Definition gt_zero (v : value) : bool := gt (to_number v) (Fin 0).

Definition is_zero (v : value) : bool :=
  match v with
  | VNum (Fin 0) => true
  | _ => false
  end.

(** [ToBoolean]: a number is truthy unless it is [0] or [NaN]. *)
Definition truthy (v : value) : bool :=
  match v with
  | VUndefined => false
  | VNum (Fin z) => negb (z =? 0)%Z
  | VNum NaN => false
  | VNum _ => true
  end.

(** [typeof v !== 'number' || isNaN(v)] *)
Definition not_a_bound (v : value) : bool :=
  match v with
  | VUndefined => true
  | VNum NaN => true
  | VNum _ => false
  end.

(** [Array.prototype.length] as a number. *)
Definition len {A} (l : list A) : num := Fin (Z.of_nat (length l)).

(** [Array.prototype.pop]: the shortened array and the removed element;
    on an empty array the result is [undefined]. *)
Definition pop {A} (q : list (option A)) : list (option A) * option A :=
  (List.removelast q, List.last q None).

End Js.

(** ** Data model *)

(** The argument passed as [callback]: a function (named by a number, its body
    is opaque) or anything else. *)
Inductive jsarg : Type :=
| Fn (f : nat)
| NotAFunction.

(** The object built by [createToken].  [timeoutId] is [None] both for
    [undefined] (never armed) and for [null] (timer fired): the code only
    tests it for truthiness.  The [elapsed], [start], [resetEvent] and [set]
    members are not read by the functions modelled here. *)
Record token : Type := Token {
  id : nat;
  isCanceled : bool;
  callback : nat;
  timeoutId : option nat
}.

Record Options : Type := MkOptions {
  maxQueueSize : value;
  overflowStrategy : string;
  autoResetCount : value
}.

(** [ResetEvent.defaultOptions] *)
Definition defaultOptions : Options :=
  {| maxQueueSize := VNum PInf;
     overflowStrategy := "this";
     autoResetCount := VNum PInf |}.

(** The [options] argument of the constructor: each property may be absent. *)
Record OptionsArg : Type := MkOptionsArg {
  arg_maxQueueSize : option value;
  arg_overflowStrategy : option string;
  arg_autoResetCount : option value
}.

Definition noOptions : OptionsArg := MkOptionsArg None None None.

(** [_.extend({}, ResetEvent.defaultOptions, options)] *)
Definition extend (defaults : Options) (o : OptionsArg) : Options :=
  {| maxQueueSize := default (maxQueueSize defaults) (arg_maxQueueSize o);
     overflowStrategy := default (overflowStrategy defaults) (arg_overflowStrategy o);
     autoResetCount := default (autoResetCount defaults) (arg_autoResetCount o) |}.

(** The reset event object together with the part of the runtime it touches.
    A queue slot holds a reference to a token, or [undefined] ([None]).
    Tokens are referred to by their [id], which [createToken] draws from the
    module-level counter [tokenId]. *)
Record state : Type := MkState {
  (* the ResetEvent instance *)
  queue : list (option nat);
  isSignaled : bool;
  options : Options;
  callbacksCount : value;
  (* module and host state *)
  tokenId : nat;
  heap : gmap nat token;
  timers : gmap nat nat;      (* pending timer handle -> token it will cancel *)
  nextTimer : nat;
  calls : list nat            (* tokens whose callback ran, oldest first *)
}.

Definition with_queue (q : list (option nat)) (s : state) : state :=
  MkState q (isSignaled s) (options s) (callbacksCount s)
          (tokenId s) (heap s) (timers s) (nextTimer s) (calls s).
Definition with_isSignaled (b : bool) (s : state) : state :=
  MkState (queue s) b (options s) (callbacksCount s)
          (tokenId s) (heap s) (timers s) (nextTimer s) (calls s).
Definition with_callbacksCount (c : value) (s : state) : state :=
  MkState (queue s) (isSignaled s) (options s) c
          (tokenId s) (heap s) (timers s) (nextTimer s) (calls s).
Definition with_tokenId (n : nat) (s : state) : state :=
  MkState (queue s) (isSignaled s) (options s) (callbacksCount s)
          n (heap s) (timers s) (nextTimer s) (calls s).
Definition with_heap (h : gmap nat token) (s : state) : state :=
  MkState (queue s) (isSignaled s) (options s) (callbacksCount s)
          (tokenId s) h (timers s) (nextTimer s) (calls s).
Definition with_timers (t : gmap nat nat) (s : state) : state :=
  MkState (queue s) (isSignaled s) (options s) (callbacksCount s)
          (tokenId s) (heap s) t (nextTimer s) (calls s).
Definition with_nextTimer (n : nat) (s : state) : state :=
  MkState (queue s) (isSignaled s) (options s) (callbacksCount s)
          (tokenId s) (heap s) (timers s) n (calls s).
Definition with_calls (l : list nat) (s : state) : state :=
  MkState (queue s) (isSignaled s) (options s) (callbacksCount s)
          (tokenId s) (heap s) (timers s) (nextTimer s) l.

(** ** The state-and-exception monad *)

Inductive outcome (A : Type) : Type :=
| Return (a : A)
| Throw (msg : string).
Arguments Return {A} a.
Arguments Throw {A} msg.

Definition M (A : Type) : Type := state -> outcome A * state.

Definition ret {A} (a : A) : M A := fun s => (Return a, s).
Definition throw {A} (msg : string) : M A := fun s => (Throw msg, s).
Definition bind {A B} (m : M A) (k : A -> M B) : M B :=
  fun s =>
    match m s with
    | (Return a, s') => k a s'
    | (Throw msg, s') => (Throw msg, s')
    end.
Definition get : M state := fun s => (Return s, s).
Definition modify (f : state -> state) : M unit := fun s => (Return tt, f s).

Declare Scope js_scope.
Delimit Scope js_scope with js.
Notation "x <- m ;; k" := (bind m (fun x => k))
  (at level 100, m at next level, right associativity) : js_scope.
Notation "m ;;; k" := (bind m (fun _ => k))
  (at level 100, right associativity) : js_scope.
Local Open Scope js_scope.

(** Reading a property of what a queue slot holds: [undefined] has no
    properties, so the access throws a [TypeError].  A reference outside the
    heap does not arise in a run; it is given the same outcome. *)
Definition deref (slot : option nat) : M (nat * token) :=
  fun s =>
    match slot with
    | None => (Throw "TypeError", s)
    | Some r =>
        match heap s !! r with
        | Some tok => (Return (r, tok), s)
        | None => (Throw "TypeError", s)
        end
    end.

(** ** Host timers *)

(** [setTimeout(function () { token.isCanceled = true; token.timeoutId = null; }, timeout)]:
    a fresh handle, pending until fired or cleared. *)
Definition setTimeout (r : nat) : M nat :=
  fun s =>
    let h := nextTimer s in
    (Return h, with_nextTimer (S h) (with_timers (<[h := r]> (timers s)) s)).

Definition clearTimeout (h : nat) : M unit :=
  modify (fun s => with_timers (delete h (timers s)) s).

(** The timer [h] expires: its closure runs against the token it captured. *)
Definition fire (h : nat) (s : state) : state :=
  match timers s !! h with
  | None => s
  | Some r =>
      with_timers (delete h (timers s))
        (with_heap
           (alter (fun tok => Token (id tok) true (callback tok) None) r (heap s)) s)
  end.

(** ** The module's functions *)

(** What outlives a gate: the module-level counter [tokenId], the tokens
    created so far, the host's timers and the record of the calls. *)
Record module_state : Type := MkModule {
  m_tokenId : nat;
  m_heap : gmap nat token;
  m_timers : gmap nat nat;
  m_nextTimer : nat;
  m_calls : list nat
}.

(** The module when it has just been loaded: [var tokenId = 0;], no token,
    no timer. *)
Definition loaded : module_state := MkModule 0 ∅ ∅ 0 [].


(** [new ResetEvent(isSignaled, options)] in a module in state [m].  The
    constructor assigns [queue], [isSignaled] and [options] only:
    [callbacksCount] stays unassigned and the module-level [tokenId] is
    where the gates before this one left it.  The state follows this gate
    from here on; earlier gates live on through their tokens and timers. *)
Definition new_ResetEvent (signaled : bool) (o : OptionsArg) (m : module_state)
  : state :=
  {| queue := [];
     isSignaled := signaled;
     options := extend defaultOptions o;
     callbacksCount := VUndefined;
     tokenId := m_tokenId m;
     heap := m_heap m;
     timers := m_timers m;
     nextTimer := m_nextTimer m;
     calls := m_calls m |}.

(** The first gate of a module that has just been loaded. *)
Definition ResetEvent (signaled : bool) (o : OptionsArg) : state :=
  new_ResetEvent signaled o loaded.

(** [createToken] (the default implementation): allocates the token object
    and advances [tokenId].  It never returns [null] or [undefined], so the
    check [wait] makes on its result cannot throw. *)
Definition createToken (f : nat) : M nat :=
  fun s =>
    let r := tokenId s in
    (Return r,
     with_tokenId (S r)
       (with_heap (<[r := Token r false f None]> (heap s)) s)).

(** [executeCallback]: the callback is opaque; its invocation is recorded. *)
Definition executeCallback (r : nat) : M unit :=
  modify (fun s => with_calls (calls s ++ [r]) s).

(** The ['last'] loop of [reduceQueue]:
    [while (queue.length && queue.length > (options.maxQueueSize - 1))
       result.unshift(queue.pop());]
    Every iteration shortens the queue, so [length q] iterations are enough
    (see [pop_loop_exit]). *)
Fixpoint pop_loop (fuel : nat) (m : num) (q result : list (option nat))
  : list (option nat) * list (option nat) :=
  match fuel with
  | O => (q, result)
  | S fuel' =>
      if negb (Nat.eqb (length q) 0) && Js.gt (Js.len q) (Js.pred m) then
        let '(q', x) := Js.pop q in
        pop_loop fuel' m q' (x :: result)
      else (q, result)
  end.

(** The ['first'] loop of [reduceQueue]:
    [while (queue.length && queue.length > options.maxQueueSize)
       result.push(queue.shift());] *)
Fixpoint shift_loop (m : num) (q result : list (option nat))
  : list (option nat) * list (option nat) :=
  match q with
  | [] => (q, result)
  | x :: q' =>
      if Js.gt (Js.len q) m then shift_loop m q' (result ++ [x])
      else (q, result)
  end.

(** [reduceQueue(queue, options)]: the queue as it is left, and the removed
    tokens that are returned. *)
Definition reduceQueue (q : list (option nat)) (o : Options)
  : list (option nat) * list (option nat) :=
  if Js.not_a_bound (maxQueueSize o) then (q, [])
  else
    let m := Js.to_number (maxQueueSize o) in
    if Js.gt (Js.len q) m then
      if String.eqb (overflowStrategy o) "last" then
        let '(q1, last) := Js.pop q in
        let '(q2, result) := pop_loop (length q1) m q1 [] in
        (q2 ++ [last], result)
      else if String.eqb (overflowStrategy o) "first" then
        shift_loop m q []
      else if negb (Nat.eqb (length q) 0) && String.eqb (overflowStrategy o) "this" then
        let '(q1, x) := Js.pop q in
        (q1, [x])
      else (q, [])
    else (q, []).

(** [reset] *)
Definition reset : M unit :=
  s <- get ;;
  if bool_decide (isSignaled s = false) then
    throw "The reset event is already in a non signaled state"
  else
    modify (with_isSignaled false).

(** One iteration of the [while (this.queue.length > 0)] loop of [set], entered
    with [queueToken :: q'] as the queue.  The result tells whether the loop
    goes on ([true]) or [set] returns from inside the loop ([false]). *)
Definition set_body (queueToken : option nat) (q' : list (option nat)) : M bool :=
  modify (with_queue q') ;;;
  modify (fun s => with_callbacksCount (Js.decr (callbacksCount s)) s) ;;;
  rt <- deref queueToken ;;
  let '(r, tok) := rt in
  s <- get ;;
  match timeoutId tok with
  | Some h => if Js.gt_zero (callbacksCount s) then clearTimeout h else ret tt
  | None => ret tt
  end ;;;
  if isCanceled tok then
    modify (fun s => with_callbacksCount (Js.incr (callbacksCount s)) s) ;;;
    ret true
  else
    executeCallback r ;;;
    s <- get ;;
    if Js.is_zero (callbacksCount s) then ret false
    else ret true.

(** The loop of [set] and the assignment after it.  The callbacks do not reach
    the reset event, so the queue read by each iteration is the tail left by
    the previous one. *)
Fixpoint set_loop (q : list (option nat)) : M unit :=
  match q with
  | [] => modify (with_isSignaled true)
  | queueToken :: q' =>
      continue <- set_body queueToken q' ;;
      if continue : bool then set_loop q' else ret tt
  end.

(** The same loop with its test [this.queue.length > 0] read from the state at
    every turn, bounded by a number of turns; [set_while_loop] shows that it
    is [set_loop] on the queue of the state as long as the turns suffice. *)
Fixpoint set_while (turns : nat) : M unit :=
  match turns with
  | O => ret tt
  | S turns' =>
      s <- get ;;
      match queue s with
      | [] => modify (with_isSignaled true)
      | queueToken :: q' =>
          continue <- set_body queueToken q' ;;
          if continue : bool then set_while turns' else ret tt
      end
  end.

(** [set] *)
Definition set : M unit :=
  s <- get ;;
  if bool_decide (isSignaled s = true) then
    throw "The reset event is already in a signaled state"
  else
    modify (with_callbacksCount (autoResetCount (options s))) ;;;
    set_loop (queue s).

(** The [for] loop of [wait] over the tokens [reduceQueue] removed. *)
Fixpoint cancel_reduced (reducedTokens : list (option nat)) : M unit :=
  match reducedTokens with
  | [] => ret tt
  | slot :: rest =>
      rt <- deref slot ;;
      let '(r, tok) := rt in
      modify (fun s =>
        with_heap (<[r := Token (id tok) true (callback tok) (timeoutId tok)]> (heap s)) s) ;;;
      match timeoutId tok with
      | Some h => clearTimeout h
      | None => ret tt
      end ;;;
      cancel_reduced rest
  end.

(** [wait(callback, timeout)]; returns the token (its reference). *)
Definition wait (cb : jsarg) (timeout : value) : M nat :=
  match cb with
  | NotAFunction => throw "Callback must be a function"
  | Fn f =>
      r <- createToken f ;;
      (if Js.truthy timeout then
         h <- setTimeout r ;;
         modify (fun s =>
           with_heap (alter (fun tok =>
             Token (id tok) (isCanceled tok) (callback tok) (Some h)) r (heap s)) s)
       else ret tt) ;;;
      s <- get ;;
      (if isSignaled s then
         executeCallback r ;;;
         modify (fun s => with_callbacksCount (Js.decr (callbacksCount s)) s) ;;;
         s <- get ;;
         if Js.is_zero (callbacksCount s) then modify (with_isSignaled false)
         else ret tt
       else
         modify (fun s => with_queue (queue s ++ [Some r]) s)) ;;;
      s <- get ;;
      let '(q, reducedTokens) := reduceQueue (queue s) (options s) in
      modify (with_queue q) ;;;
      cancel_reduced reducedTokens ;;;
      ret r
  end.

(** [queueSize] *)
Definition queueSize (s : state) : nat := length (queue s).

(** ** Running a client *)

Inductive op : Type :=
| OpWait (cb : jsarg) (timeout : value)
| OpSet
| OpReset
| OpFire (h : nat).

(** One step of a client; an exception is caught by the client and the state
    is the one the throwing call left behind. *)
Definition step (o : op) (s : state) : state :=
  match o with
  | OpWait cb t => snd (wait cb t s)
  | OpSet => snd (set s)
  | OpReset => snd (reset s)
  | OpFire h => fire h s
  end.

Definition run (ops : list op) (s : state) : state :=
  fold_left (fun s o => step o s) ops s.

(** * Notions used in the statements *)

(** The three documented strategies. *)
Definition known_strategy (o : Options) : Prop :=
  overflowStrategy o = "last"%string ∨ overflowStrategy o = "first"%string
  ∨ overflowStrategy o = "this"%string.

(** The smallest queue length a strategy can reach: ['last'] always keeps the
    newest token. *)
Definition floor (o : Options) : num :=
  if String.eqb (overflowStrategy o) "last" then Fin 1 else Fin 0.

(** [wait] up to its call of [reduceQueue], as plain state transformers: the
    token is created, its timer armed, and it is run or queued.  Nothing in
    this part can throw. *)
Definition arm (t : value) (r : nat) (s : state) : state :=
  if Js.truthy t then
    let h := nextTimer s in
    let s1 := with_nextTimer (S h) (with_timers (<[h := r]> (timers s)) s) in
    with_heap (alter (fun tok =>
      Token (id tok) (isCanceled tok) (callback tok) (Some h)) r (heap s1)) s1
  else s.

Definition place_token (r : nat) (s : state) : state :=
  if isSignaled s then
    let s1 := with_callbacksCount (Js.decr (callbacksCount s))
                (with_calls (calls s ++ [r]) s) in
    if Js.is_zero (callbacksCount s1) then with_isSignaled false s1 else s1
  else with_queue (queue s ++ [Some r]) s.

Definition wait_enter (f : nat) (t : value) (s : state) : state :=
  place_token (tokenId s) (arm t (tokenId s) (snd (createToken f s))).

(** The queue [reduceQueue] is applied to by [wait]. *)
Definition queue_before_reduce (s : state) : list (option nat) :=
  if isSignaled s then queue s else queue s ++ [Some (tokenId s)].

Definition waits (ws : list (jsarg * value)) : list op :=
  map (fun w => OpWait (fst w) (snd w)) ws.

(** The scenario against the unrestricted bound: a closed gate with
    [maxQueueSize: 0] and the ['last'] strategy. *)
Definition zero_bound_last : state :=
  ResetEvent false (MkOptionsArg (Some (VNum (Fin 0))) (Some "last"%string) None).

(** A queue slot holds a token (a reference into the heap). *)
Definition is_token (hp : gmap nat token) (slot : option nat) : bool :=
  match slot with
  | Some r => bool_decide (is_Some (hp !! r))
  | None => false
  end.

(** The token of a slot, when it is one that has not been cancelled. *)
Definition live_ref (hp : gmap nat token) (slot : option nat) : option nat :=
  match slot with
  | Some r =>
      match hp !! r with
      | Some tok => if isCanceled tok then None else Some r
      | None => None
      end
  | None => None
  end.

(** The non-cancelled tokens of a queue, front (oldest) first. *)
Fixpoint live_refs (hp : gmap nat token) (q : list (option nat)) : list nat :=
  match q with
  | [] => []
  | slot :: q' =>
      match live_ref hp slot with
      | Some r => r :: live_refs hp q'
      | None => live_refs hp q'
      end
  end.

(** What is left of a queue once its [k]-th non-cancelled token has been
    taken ([k >= 1]). *)
Fixpoint after_live (k : nat) (hp : gmap nat token) (q : list (option nat))
  : list (option nat) :=
  match q with
  | [] => []
  | slot :: q' =>
      match live_ref hp slot with
      | Some _ =>
          match k with
          | 0 | 1 => q'
          | S k' => after_live k' hp q'
          end
      | None => after_live k hp q'
      end
  end.

(** A release budget that reaches exactly 0 on one of [n] callbacks. *)
Definition exhausts (c : value) (n : nat) : bool :=
  match Js.to_number c with
  | Fin z => (1 <=? z)%Z && (z <=? Z.of_nat n)%Z
  | _ => false
  end.

(** The [clearTimeout] of an iteration: only when the token carries a timer
    handle and the decremented budget is still positive. *)
Definition clear_if_budget (tok : token) (s : state) : state :=
  match timeoutId tok with
  | Some h =>
      if Js.gt_zero (callbacksCount s) then with_timers (delete h (timers s)) s
      else s
  | None => s
  end.

(** The state an iteration works on once the slot is taken off the queue and
    the budget decremented. *)
Definition popped (q : list (option nat)) (s : state) : state :=
  with_callbacksCount (Js.decr (callbacksCount s)) (with_queue q s).

(** A closed gate with [n] waiters and [autoResetCount: k]. *)
Definition closed_with_waiters (n : nat) (k : value) : state :=
  run (waits (replicate n (Fn 0, VUndefined)))
      (ResetEvent false (MkOptionsArg None None (Some k))).

(** [new ResetEvent(true, {autoResetCount: 2})] *)
Definition open_with_count_two : state :=
  ResetEvent true (MkOptionsArg None None (Some (VNum (Fin 2)))).

Definition three_waits : list op :=
  waits [(Fn 0, VUndefined); (Fn 1, VUndefined); (Fn 2, VUndefined)].

(** [new ResetEvent(true, {maxQueueSize: -1, overflowStrategy: 'last'})] *)
Definition open_negative_last : state :=
  ResetEvent true
    (MkOptionsArg (Some (VNum (Fin (-1)))) (Some "last"%string) None).

Definition open_has_empty_queue (s : state) : Prop :=
  isSignaled s = true → queue s = [].

(** Every option set under which [reduceQueue] leaves an empty queue empty:
    all of them but ['last'] with a negative [maxQueueSize]. *)
Definition keeps_empty (o : Options) : Prop := fst (reduceQueue [] o) = [].


(** No pending timer is aimed at the token [r]. *)
Definition untimed (r : nat) (s : state) : Prop :=
  r < tokenId s ∧ ∀ h, timers s !! h ≠ Some r.

(** The tokens a queue refers to, front first ([undefined] slots left out). *)
Fixpoint refs (q : list (option nat)) : list nat :=
  match q with
  | [] => []
  | Some r :: q' => r :: refs q'
  | None :: q' => refs q'
  end.

(** The token [r] has been cancelled, by a timer or by [wait]'s loop over the
    removed tokens. *)
Definition canceled (r : nat) (s : state) : Prop :=
  r < tokenId s ∧ ∃ tok, heap s !! r = Some tok ∧ isCanceled tok = true.

(** Options under which [reduceQueue] never removes anything: a
    [maxQueueSize] that is not a number (which the [typeof] test treats as it
    does [undefined]), [NaN], or [Infinity] (the default). *)
Definition unbounded (o : Options) : Prop :=
  Js.not_a_bound (maxQueueSize o) = true ∨ maxQueueSize o = VNum PInf.

(** Calls of [wait] that all pass a function. *)
Definition fn_waits (ws : list (nat * value)) : list op :=
  map (fun w => OpWait (Fn (fst w)) (snd w)) ws.

(** The number a budget has become after [k] callbacks. *)
Definition budget_after (c : value) (k : nat) : num :=
  match Js.to_number c with
  | Fin z => Fin (z - Z.of_nat k)
  | other => other
  end.

(** A closed gate with [n] waiters, built with the given options. *)
Definition closed_gate (n : nat) (o : OptionsArg) : state :=
  run (fn_waits (replicate n (0, VUndefined))) (ResetEvent false o).

(** The tokens [qr] of a queue and the callbacks [cs] that ran, with [n] the
    next token id: the queue is in strictly increasing id order, no callback
    ran twice, no queued token has run, and every id is below [n]. *)
Definition orderly_lists (qr cs : list nat) (n : nat) : Prop :=
  StronglySorted lt qr ∧ Forall (fun r => r < n) qr
  ∧ NoDup cs ∧ Forall (fun r => r < n) cs
  ∧ (∀ r, r ∈ qr → r ∉ cs).

Definition orderly (s : state) : Prop :=
  orderly_lists (refs (queue s)) (calls s) (tokenId s).




(** * Lemmas about the model *)

Ltac unfold_monad :=
  unfold bind, ret, throw, get, modify, deref, clearTimeout, setTimeout,
    createToken, executeCallback in *.

Arguments Js.is_zero v : simpl never.
Arguments Js.gt_zero v : simpl never.
Arguments Js.decr v : simpl never.
Arguments Js.incr v : simpl never.

(** ** Arrays *)

Ltac pop_simpl :=
  unfold Js.pop; rewrite ?List.removelast_last, ?List.last_last.

Lemma snoc_cases {A} (q : list A) : q = [] ∨ ∃ q0 x, q = q0 ++ [x].
Proof.
  induction q as [|x q0 _] using rev_ind; [by left | right; eauto].
Qed.

(** ** [reduceQueue] *)

(** The ['last'] loop leaves the oldest [maxQueueSize - 1] slots and returns
    the others, oldest first. *)
Lemma pop_loop_fin fuel z q result :
  length q ≤ fuel →
  pop_loop fuel (Fin z) q result
  = (take (Z.to_nat (z - 1)) q, drop (Z.to_nat (z - 1)) q ++ result).
Proof.
  revert q result. induction fuel as [|fuel IH]; intros q result Hfuel.
  - destruct q; [|simpl in Hfuel; lia]. by rewrite take_nil, drop_nil.
  - simpl. destruct (snoc_cases q) as [->|(q0 & x & ->)].
    + by rewrite take_nil, drop_nil.
    + rewrite length_app in *. simpl in *.
      replace (Nat.eqb (length q0 + 1) 0) with false
        by (symmetry; apply Nat.eqb_neq; lia).
      unfold Js.len. rewrite ?length_app. simpl.
      destruct (Z.ltb_spec (z - 1) (Z.of_nat (length q0 + 1))) as [Hlt|Hge].
      * pop_simpl. rewrite IH by lia.
        rewrite take_app_le, drop_app_le by lia.
        by rewrite <- app_assoc.
      * rewrite take_ge, drop_ge by (rewrite length_app; simpl; lia). done.
Qed.

(** The fuel handed to the ['last'] loop is never what stops it: on exit the
    loop condition is false. *)
Lemma pop_loop_exit fuel m q result :
  length q ≤ fuel →
  let q' := fst (pop_loop fuel m q result) in
  negb (Nat.eqb (length q') 0) && Js.gt (Js.len q') (Js.pred m) = false.
Proof.
  revert q result. induction fuel as [|fuel IH]; intros q result Hfuel.
  - destruct q; [done|simpl in Hfuel; lia].
  - cbn [pop_loop].
    destruct (negb (Nat.eqb (length q) 0) && Js.gt (Js.len q) (Js.pred m)) eqn:Hc;
      [|exact Hc].
    destruct (snoc_cases q) as [->|(q0 & x & ->)]; [done|].
    pop_simpl. apply IH. rewrite length_app in Hfuel. simpl in Hfuel. lia.
Qed.

(** The ['first'] loop drops the oldest slots down to [maxQueueSize]. *)
Lemma shift_loop_fin z q result :
  shift_loop (Fin z) q result
  = (drop (length q - Z.to_nat z) q, result ++ take (length q - Z.to_nat z) q).
Proof.
  revert result. induction q as [|x q IH]; intros result.
  - simpl. by rewrite app_nil_r.
  - cbn [shift_loop]. unfold Js.len, Js.gt. cbn [length].
    destruct (Z.ltb_spec z (Z.of_nat (S (length q)))) as [Hlt|Hge].
    + rewrite IH.
      replace (S (length q) - Z.to_nat z) with (S (length q - Z.to_nat z)) by lia.
      simpl. by rewrite <- app_assoc.
    + replace (S (length q) - Z.to_nat z) with 0 by lia.
      simpl. by rewrite app_nil_r.
Qed.

(** What [reduceQueue] keeps under ['last'] with a bound of at least 1: the
    oldest [maxQueueSize - 1] slots, then the newest. *)
Lemma reduceQueue_last q x o z :
  overflowStrategy o = "last"%string →
  maxQueueSize o = VNum (Fin z) →
  (1 ≤ z)%Z →
  (z < Z.of_nat (length (q ++ [x])))%Z →
  reduceQueue (q ++ [x]) o
  = (take (Z.to_nat (z - 1)) q ++ [x], drop (Z.to_nat (z - 1)) q).
Proof.
  intros Hs Hm Hz Hlen. unfold reduceQueue. rewrite Hm, Hs. simpl.
  destruct (Z.ltb_spec z (Z.of_nat (length (q ++ [x])))); [|lia].
  pop_simpl. rewrite pop_loop_fin by done. by rewrite app_nil_r.
Qed.

(** A queue that is at most one slot over the bound is brought back under it
    by any of the three strategies; ['first'] and ['last'] need no assumption
    on the queue. *)
Lemma reduceQueue_bound q o m :
  maxQueueSize o = VNum m →
  known_strategy o →
  Js.le (floor o) m = true →
  (overflowStrategy o = "this"%string → Js.le (Js.len q) (Js.succ m) = true) →
  Js.le (Js.len (fst (reduceQueue q o))) m = true.
Proof.
  intros Hm Hk Hfloor Hthis. unfold reduceQueue, floor in *. rewrite Hm.
  destruct m as [z| | |]; simpl in *;
    try (by destruct (String.eqb _ _)).
  unfold Js.len in *. simpl in *.
  destruct (Z.ltb_spec z (Z.of_nat (length q))) as [Hlt|Hge];
    [|simpl; by apply Z.leb_le].
  destruct Hk as [Hs|[Hs|Hs]]; rewrite Hs in *; simpl in *.
  - apply Z.leb_le in Hfloor.
    destruct (snoc_cases q) as [->|(q0 & x & ->)]; [simpl in Hlt; lia|].
    pop_simpl. rewrite pop_loop_fin by done. simpl.
    rewrite length_app, length_take. rewrite length_app in Hlt. simpl in *.
    apply Z.leb_le. lia.
  - apply Z.leb_le in Hfloor. rewrite shift_loop_fin. simpl.
    rewrite length_drop. apply Z.leb_le. lia.
  - specialize (Hthis eq_refl). apply Z.leb_le in Hthis, Hfloor.
    destruct (snoc_cases q) as [->|(q0 & x & ->)]; [simpl in Hlt; lia|].
    rewrite length_app in *. simpl in *.
    replace (Nat.eqb (length q0 + 1) 0) with false
      by (symmetry; apply Nat.eqb_neq; lia).
    simpl. pop_simpl. simpl. apply Z.leb_le. lia.
Qed.

(** ** What [wait] does to the reset event itself *)

(** Cancelling the removed tokens touches the heap and the timers only. *)
Lemma cancel_reduced_frame l s :
  let s' := snd (cancel_reduced l s) in
  queue s' = queue s ∧ isSignaled s' = isSignaled s ∧ options s' = options s
  ∧ callbacksCount s' = callbacksCount s ∧ calls s' = calls s
  ∧ tokenId s' = tokenId s ∧ nextTimer s' = nextTimer s.
Proof.
  revert s. induction l as [|slot l IH]; intros s; [done|].
  cbn [cancel_reduced]. unfold_monad.
  destruct slot as [r|]; [|done].
  destruct (heap s !! r) as [tok|] eqn:Hr; [|done].
  destruct (timeoutId tok); simpl;
    match goal with |- context [cancel_reduced l ?s0] =>
      destruct (IH s0) as (? & ? & ? & ? & ? & ? & ?) end;
    destruct (cancel_reduced l _) as [[]?]; simpl in *; done.
Qed.

Lemma wait_eq f t s :
  wait (Fn f) t s
  = let s1 := wait_enter f t s in
    let '(q, reducedTokens) := reduceQueue (queue s1) (options s1) in
    match cancel_reduced reducedTokens (with_queue q s1) with
    | (Return _, s') => (Return (tokenId s), s')
    | (Throw msg, s') => (Throw msg, s')
    end.
Proof.
  unfold wait, wait_enter, place_token, arm. unfold_monad.
  destruct (Js.truthy t); simpl; destruct (isSignaled s); simpl;
    try destruct (Js.is_zero _); simpl;
    match goal with |- context [reduceQueue ?q ?o] =>
      destruct (reduceQueue q o) as [q' red] end; reflexivity.
Qed.

Lemma wait_enter_queue f t s :
  queue (wait_enter f t s) = queue_before_reduce s.
Proof.
  unfold wait_enter, place_token, arm, queue_before_reduce. unfold_monad.
  destruct (Js.truthy t); simpl; destruct (isSignaled s); simpl;
    try destruct (Js.is_zero _); reflexivity.
Qed.

Lemma wait_enter_options f t s : options (wait_enter f t s) = options s.
Proof.
  unfold wait_enter, place_token, arm. unfold_monad.
  destruct (Js.truthy t); simpl; destruct (isSignaled s); simpl;
    try destruct (Js.is_zero _); reflexivity.
Qed.

Lemma wait_enter_closed f t s :
  isSignaled s = false → isSignaled (wait_enter f t s) = false.
Proof.
  intros Hc. unfold wait_enter, place_token, arm. unfold_monad.
  destruct (Js.truthy t); simpl; rewrite Hc; simpl; exact Hc.
Qed.

(** The part of the state [wait] leaves behind that does not depend on how the
    cancelling of removed tokens went. *)
Lemma wait_gate f t s :
  let s1 := wait_enter f t s in
  let s' := snd (wait (Fn f) t s) in
  queue s' = fst (reduceQueue (queue s1) (options s1))
  ∧ isSignaled s' = isSignaled s1 ∧ options s' = options s1
  ∧ callbacksCount s' = callbacksCount s1 ∧ calls s' = calls s1
  ∧ tokenId s' = tokenId s1 ∧ nextTimer s' = nextTimer s1.
Proof.
  rewrite wait_eq. cbv zeta.
  destruct (reduceQueue _ _) as [q red]. cbn [fst].
  pose proof (cancel_reduced_frame red (with_queue q (wait_enter f t s))) as H.
  cbv zeta in H. destruct (cancel_reduced red _) as [[] s']; exact H.
Qed.

Lemma wait_queue f t s :
  queue (snd (wait (Fn f) t s))
  = fst (reduceQueue (queue_before_reduce s) (options s)).
Proof.
  destruct (wait_gate f t s) as (-> & _).
  by rewrite wait_enter_queue, wait_enter_options.
Qed.

Lemma wait_options cb t s : options (snd (wait cb t s)) = options s.
Proof.
  destruct cb as [f|]; [|done].
  destruct (wait_gate f t s) as (_ & _ & -> & _). apply wait_enter_options.
Qed.

(** A closed gate stays closed across [wait]. *)
Lemma wait_closed cb t s :
  isSignaled s = false → isSignaled (snd (wait cb t s)) = false.
Proof.
  intros Hc. destruct cb as [f|]; [|done].
  destruct (wait_gate f t s) as (_ & -> & _). by apply wait_enter_closed.
Qed.

(** A call with something that is not a function throws and changes nothing. *)
Lemma wait_not_a_function t s :
  wait NotAFunction t s = (Throw "Callback must be a function", s).
Proof. done. Qed.

(** ** The queue bound under [wait] *)

Lemma le_len_snoc {A} (q : list A) (x : A) m :
  Js.le (Js.len q) m = true → Js.le (Js.len (q ++ [x])) (Js.succ m) = true.
Proof.
  unfold Js.len. rewrite length_app. destruct m; simpl; try done.
  intros H%Z.leb_le. apply Z.leb_le. lia.
Qed.

Lemma wait_bound cb t s m :
  isSignaled s = false →
  maxQueueSize (options s) = VNum m →
  known_strategy (options s) →
  Js.le (floor (options s)) m = true →
  Js.le (Js.len (queue s)) m = true →
  Js.le (Js.len (queue (snd (wait cb t s)))) m = true.
Proof.
  intros Hc Hm Hk Hf Hq. destruct cb as [f|]; [|done].
  rewrite wait_queue. unfold queue_before_reduce. rewrite Hc.
  apply reduceQueue_bound; try done. intros _. by apply le_len_snoc.
Qed.

(** ** [set]: draining the queue *)

Lemma incr_decr c : Js.incr (Js.decr c) = VNum (Js.to_number c).
Proof.
  unfold Js.incr, Js.decr. destruct (Js.to_number c); simpl; try done.
  f_equal. f_equal. lia.
Qed.

Lemma live_refs_cons_live hp r tok q :
  hp !! r = Some tok → isCanceled tok = false →
  live_refs hp (Some r :: q) = r :: live_refs hp q.
Proof. intros Hr Hc. simpl. by rewrite Hr, Hc. Qed.

Lemma live_refs_cons_dead hp r tok q :
  hp !! r = Some tok → isCanceled tok = true →
  live_refs hp (Some r :: q) = live_refs hp q.
Proof. intros Hr Hc. simpl. by rewrite Hr, Hc. Qed.

Lemma after_live_cons_dead k hp r tok q :
  hp !! r = Some tok → isCanceled tok = true →
  after_live k hp (Some r :: q) = after_live k hp q.
Proof. intros Hr Hc. simpl. by rewrite Hr, Hc. Qed.

Lemma after_live_cons_live k hp r tok q :
  hp !! r = Some tok → isCanceled tok = false →
  after_live (S k) hp (Some r :: q)
  = match k with 0 => q | S _ => after_live k hp q end.
Proof. intros Hr Hc. simpl. by rewrite Hr, Hc. Qed.

Lemma clear_if_budget_frame tok s :
  let s' := clear_if_budget tok s in
  queue s' = queue s ∧ isSignaled s' = isSignaled s ∧ options s' = options s
  ∧ callbacksCount s' = callbacksCount s ∧ calls s' = calls s
  ∧ tokenId s' = tokenId s ∧ nextTimer s' = nextTimer s ∧ heap s' = heap s.
Proof.
  unfold clear_if_budget. destruct (timeoutId tok); try destruct (Js.gt_zero _); done.
Qed.

(** One iteration on a slot that holds a token. *)
Lemma set_body_token r tok q s :
  heap s !! r = Some tok →
  set_body (Some r) q s
  = let s2 := clear_if_budget tok (popped q s) in
    if isCanceled tok then
      (Return true, with_callbacksCount (Js.incr (callbacksCount s2)) s2)
    else
      (Return (negb (Js.is_zero (callbacksCount s2))),
       with_calls (calls s2 ++ [r]) s2).
Proof.
  intros Hr. unfold set_body, clear_if_budget, popped. unfold_monad.
  simpl. rewrite Hr.
  destruct (timeoutId tok) as [h|]; simpl;
    try destruct (Js.gt_zero _); simpl;
    destruct (isCanceled tok); simpl; try done;
    destruct (Js.is_zero _); done.
Qed.

(** An iteration changes neither the heap nor the gate's flag and options. *)
Lemma set_body_frame slot q s :
  let s' := snd (set_body slot q s) in
  heap s' = heap s ∧ isSignaled s' = isSignaled s ∧ options s' = options s
  ∧ tokenId s' = tokenId s ∧ nextTimer s' = nextTimer s.
Proof.
  destruct slot as [r|]; [|done].
  destruct (heap s !! r) as [tok|] eqn:Hr.
  - rewrite (set_body_token _ _ _ _ Hr). cbv zeta.
    destruct (clear_if_budget_frame tok (popped q s))
      as (_ & ? & ? & _ & _ & ? & ? & ?).
    destruct (isCanceled tok); simpl; done.
  - unfold set_body. unfold_monad. simpl. by rewrite Hr.
Qed.

Lemma is_token_Some hp slot :
  is_token hp slot = true → ∃ r tok, slot = Some r ∧ hp !! r = Some tok.
Proof.
  destruct slot as [r|]; [|done]. simpl. intros H%bool_decide_eq_true.
  destruct H as [tok Htok]. eauto.
Qed.

(** The loop on a cancelled token and on a live one. *)
Lemma set_loop_cons_dead r tok q s :
  heap s !! r = Some tok → isCanceled tok = true →
  set_loop (Some r :: q) s
  = set_loop q (with_callbacksCount (VNum (Js.to_number (callbacksCount s)))
                  (clear_if_budget tok (popped q s))).
Proof.
  intros Hr Hc. cbn [set_loop]. unfold bind at 1.
  rewrite (set_body_token _ _ _ _ Hr), Hc. cbv zeta.
  destruct (clear_if_budget_frame tok (popped q s)) as (_ & _ & _ & -> & _).
  unfold popped at 1. cbn [callbacksCount with_callbacksCount].
  by rewrite incr_decr.
Qed.

Lemma set_loop_cons_live r tok q s :
  heap s !! r = Some tok → isCanceled tok = false →
  set_loop (Some r :: q) s
  = let s2 := clear_if_budget tok (popped q s) in
    let s3 := with_calls (calls s ++ [r]) s2 in
    if Js.is_zero (Js.decr (callbacksCount s)) then (Return tt, s3)
    else set_loop q s3.
Proof.
  intros Hr Hc. cbn [set_loop]. unfold bind at 1.
  rewrite (set_body_token _ _ _ _ Hr), Hc. cbv zeta.
  destruct (clear_if_budget_frame tok (popped q s)) as (_ & _ & _ & -> & -> & _).
  unfold popped at 1 3. cbn [callbacksCount calls with_callbacksCount with_queue].
  destruct (Js.is_zero _); done.
Qed.

Lemma is_zero_decr c :
  Js.is_zero (Js.decr c) = true ↔ Js.to_number c = Fin 1.
Proof.
  unfold Js.is_zero, Js.decr. destruct (Js.to_number c) as [z| | |]; simpl;
    try (split; done).
  destruct (z - 1)%Z eqn:E; split; try done; intros; f_equal; try lia;
    injection H; lia.
Qed.

(** The whole loop on a queue of tokens, in terms of the budget it starts
    with: either the budget reaches 0 on the [k]-th callback and [set]
    returns from inside the loop, or the queue is drained and the gate is
    signaled. *)
Lemma set_loop_spec q s :
  forallb (is_token (heap s)) q = true →
  queue s = q →
  fst (set_loop q s) = Return tt
  ∧ heap (snd (set_loop q s)) = heap s
  ∧ options (snd (set_loop q s)) = options s
  ∧ if exhausts (callbacksCount s) (length (live_refs (heap s) q)) then
      ∃ z, Js.to_number (callbacksCount s) = Fin z
      ∧ calls (snd (set_loop q s))
        = calls s ++ take (Z.to_nat z) (live_refs (heap s) q)
      ∧ queue (snd (set_loop q s)) = after_live (Z.to_nat z) (heap s) q
      ∧ isSignaled (snd (set_loop q s)) = isSignaled s
    else
      calls (snd (set_loop q s)) = calls s ++ live_refs (heap s) q
      ∧ queue (snd (set_loop q s)) = []
      ∧ isSignaled (snd (set_loop q s)) = true.
Proof.
  revert s. induction q as [|slot q IH]; intros s Hok Hq.
  - cbn [set_loop]. unfold modify. cbn. rewrite app_nil_r, Hq.
    replace (exhausts (callbacksCount s) 0) with false; [done|].
    unfold exhausts. destruct (Js.to_number _) as [z| | |]; try done.
    symmetry. apply andb_false_iff. rewrite !Z.leb_gt. lia.
  - cbn [forallb] in Hok. apply andb_true_iff in Hok as [Hslot Hok].
    apply is_token_Some in Hslot as (r & tok & -> & Hr).
    destruct (clear_if_budget_frame tok (popped q s))
      as (Fq & Fsig & Fo & Fc & Fcalls & _ & _ & Fh).
    destruct (isCanceled tok) eqn:Hcan.
    + (* a cancelled token: the budget is given back *)
      rewrite (set_loop_cons_dead _ _ _ _ Hr Hcan).
      rewrite (live_refs_cons_dead _ _ _ _ Hr Hcan).
      set (s3 := with_callbacksCount _ _).
      assert (heap s3 = heap s) as Hh3 by (subst s3; simpl; by rewrite Fh).
      destruct (IH s3) as (IH1 & IH2 & IH3 & IH4).
      { by rewrite Hh3. }
      { subst s3; simpl. by rewrite Fq. }
      rewrite Hh3 in IH2, IH4.
      assert (options s3 = options s) as Ho3 by (subst s3; simpl; by rewrite Fo).
      assert (calls s3 = calls s) as Hc3 by (subst s3; simpl; by rewrite Fcalls).
      assert (isSignaled s3 = isSignaled s) as Hs3
        by (subst s3; simpl; by rewrite Fsig).
      assert (exhausts (callbacksCount s3) (length (live_refs (heap s) q))
              = exhausts (callbacksCount s) (length (live_refs (heap s) q)))
        as He3 by done.
      rewrite He3, Hc3, Hs3 in IH4.
      split; [done|]. split; [done|]. split; [congruence|].
      destruct (exhausts _ _); [|done].
      destruct IH4 as (z & Hz & ? & ? & ?). exists z.
      rewrite (after_live_cons_dead _ _ _ _ _ Hr Hcan). done.
    + (* a live token: its callback runs *)
      rewrite (set_loop_cons_live _ _ _ _ Hr Hcan). cbv zeta.
      rewrite (live_refs_cons_live _ _ _ _ Hr Hcan).
      set (s3 := with_calls _ _).
      assert (heap s3 = heap s) as Hh3 by (subst s3; simpl; by rewrite Fh).
      assert (options s3 = options s) as Ho3 by (subst s3; simpl; by rewrite Fo).
      assert (isSignaled s3 = isSignaled s) as Hs3
        by (subst s3; simpl; by rewrite Fsig).
      assert (queue s3 = q) as Hq3 by (subst s3; simpl; by rewrite Fq).
      assert (calls s3 = calls s ++ [r]) as Hc3 by done.
      assert (callbacksCount s3 = Js.decr (callbacksCount s)) as Hb3
        by (subst s3; simpl; by rewrite Fc).
      destruct (Js.is_zero (Js.decr (callbacksCount s))) eqn:Hz.
      * (* the budget is used up: [set] returns *)
        apply is_zero_decr in Hz. cbn [fst snd].
        split; [done|]. split; [done|]. split; [done|].
        unfold exhausts. rewrite Hz. cbn [length].
        replace ((1 <=? 1)%Z && (1 <=? Z.of_nat (S _))%Z) with true
          by (symmetry; apply andb_true_iff; rewrite !Z.leb_le; lia).
        exists 1%Z. split; [done|]. change (Z.to_nat 1) with 1%nat.
        rewrite (after_live_cons_live _ _ _ _ _ Hr Hcan). done.
      * destruct (IH s3) as (IH1 & IH2 & IH3 & IH4).
        { by rewrite Hh3. }
        { done. }
        rewrite Hh3, Hc3, Hs3 in IH4.
        split; [done|]. split; [congruence|]. split; [congruence|].
        assert (Js.to_number (callbacksCount s) ≠ Fin 1) as Hne.
        { intros H1%is_zero_decr. congruence. }
        rewrite Hb3 in IH4. unfold exhausts in *.
        unfold Js.decr in IH4. cbn [Js.to_number] in IH4.
        destruct (Js.to_number (callbacksCount s)) as [z| | |];
          cbn [Js.pred] in IH4; try (rewrite <- app_assoc in IH4; done).
        assert (z ≠ 1%Z) by congruence. cbn [length].
        destruct (Z.leb_spec 1 (z - 1)),
                 (Z.leb_spec (z - 1) (Z.of_nat (length (live_refs (heap s) q))));
          destruct (Z.leb_spec 1 z),
                   (Z.leb_spec z (Z.of_nat (S (length (live_refs (heap s) q)))));
          cbn [andb] in *; try lia;
          try (rewrite <- app_assoc in IH4; done).
        destruct IH4 as (z' & Hz' & IHa & IHb & IHc).
        assert (z' = (z - 1)%Z) as -> by congruence.
        exists z. split; [done|].
        replace (Z.to_nat z) with (S (Z.to_nat (z - 1))) by lia.
        rewrite (after_live_cons_live _ _ _ _ _ Hr Hcan).
        split; [by rewrite IHa, <- app_assoc|]. split; [|done].
        rewrite IHb. destruct (Z.to_nat (z - 1)) eqn:E; [lia|done].
Qed.

(** [set] and [reset] by the state of the gate. *)
Lemma set_closed s :
  isSignaled s = false →
  set s = set_loop (queue s) (with_callbacksCount (autoResetCount (options s)) s).
Proof. intros Hc. unfold set. unfold_monad. by rewrite Hc. Qed.

Lemma set_open s :
  isSignaled s = true →
  set s = (Throw "The reset event is already in a signaled state", s).
Proof. intros Hc. unfold set. unfold_monad. by rewrite Hc. Qed.

Lemma reset_open s :
  isSignaled s = true → reset s = (Return tt, with_isSignaled false s).
Proof. intros Hc. unfold reset. unfold_monad. by rewrite Hc. Qed.

Lemma reset_closed s :
  isSignaled s = false →
  reset s = (Throw "The reset event is already in a non signaled state", s).
Proof. intros Hc. unfold reset. unfold_monad. by rewrite Hc. Qed.

(** [set] on a closed gate whose queue holds tokens. *)
Lemma set_spec s :
  isSignaled s = false →
  forallb (is_token (heap s)) (queue s) = true →
  fst (set s) = Return tt
  ∧ heap (snd (set s)) = heap s
  ∧ options (snd (set s)) = options s
  ∧ if exhausts (autoResetCount (options s))
         (length (live_refs (heap s) (queue s))) then
      ∃ z, Js.to_number (autoResetCount (options s)) = Fin z
      ∧ calls (snd (set s))
        = calls s ++ take (Z.to_nat z) (live_refs (heap s) (queue s))
      ∧ queue (snd (set s)) = after_live (Z.to_nat z) (heap s) (queue s)
      ∧ isSignaled (snd (set s)) = false
    else
      calls (snd (set s)) = calls s ++ live_refs (heap s) (queue s)
      ∧ queue (snd (set s)) = []
      ∧ isSignaled (snd (set s)) = true.
Proof.
  intros Hc Hok. rewrite (set_closed _ Hc).
  pose proof (set_loop_spec (queue s)
    (with_callbacksCount (autoResetCount (options s)) s) Hok eq_refl) as H.
  cbn [heap options callbacksCount calls isSignaled with_callbacksCount] in H.
  by rewrite Hc in H.
Qed.

Lemma live_refs_length_le hp q : length (live_refs hp q) ≤ length q.
Proof.
  induction q as [|slot q IH]; [done|]. simpl.
  destruct (live_ref hp slot); simpl; lia.
Qed.

(** Past the [k]-th non-cancelled token, the non-cancelled tokens are those
    after the first [k]. *)
Lemma live_refs_after_live k hp q :
  1 ≤ k ≤ length (live_refs hp q) →
  live_refs hp (after_live k hp q) = drop k (live_refs hp q).
Proof.
  revert k. induction q as [|slot q IH]; intros k Hk; [simpl in Hk; lia|].
  simpl in *.
  destruct (live_ref hp slot) eqn:Hl; simpl in *.
  - destruct k as [|[|k]]; [lia|done|]. rewrite IH by lia. done.
  - by apply IH.
Qed.

(** In a queue without cancelled tokens it is simply the queue after its
    first [k] slots. *)
Lemma after_live_all_live k hp q :
  length (live_refs hp q) = length q → 1 ≤ k →
  after_live k hp q = drop k q.
Proof.
  revert k. induction q as [|slot q IH]; intros k Hall Hk.
  - by rewrite drop_nil.
  - pose proof (live_refs_length_le hp q) as Hle. simpl in *.
    destruct (live_ref hp slot) eqn:Hl; simpl in *; [|lia].
    destruct k as [|[|k]]; [lia|done|]. rewrite IH by lia. done.
Qed.

(** ** Frame properties of the loops *)

Lemma set_body_queue slot q s : queue (snd (set_body slot q s)) = q.
Proof.
  destruct slot as [r|]; [|done].
  destruct (heap s !! r) as [tok|] eqn:Hr.
  - rewrite (set_body_token _ _ _ _ Hr). cbv zeta.
    destruct (clear_if_budget_frame tok (popped q s)) as (Hq & _).
    destruct (isCanceled tok); simpl; by rewrite Hq.
  - unfold set_body. unfold_monad. simpl. by rewrite Hr.
Qed.

Lemma set_while_loop turns s :
  length (queue s) < turns → set_while turns s = set_loop (queue s) s.
Proof.
  revert s. induction turns as [|turns IH]; intros s Hlen; [lia|].
  cbn [set_while]. unfold bind at 1. unfold get.
  destruct (queue s) as [|slot q] eqn:Hq; [done|].
  cbn [set_loop]. unfold bind.
  pose proof (set_body_queue slot q s) as Fq.
  destruct (set_body slot q s) as [[[|]|msg] s1]; cbn [snd] in Fq; [|done|done].
  rewrite IH, Fq; [done|]. rewrite Fq. cbn [length] in Hlen. lia.
Qed.

(** An iteration only ever removes a timer. *)
Lemma set_body_timers slot q s h x :
  timers (snd (set_body slot q s)) !! h = Some x → timers s !! h = Some x.
Proof.
  destruct slot as [r|]; [|done].
  destruct (heap s !! r) as [tok|] eqn:Hr.
  - rewrite (set_body_token _ _ _ _ Hr). cbv zeta.
    unfold clear_if_budget, popped.
    destruct (timeoutId tok) as [h'|]; simpl;
      try destruct (Js.gt_zero _); destruct (isCanceled tok); simpl; try done;
      intros H%lookup_delete_Some; by destruct H.
  - unfold set_body. unfold_monad. simpl. by rewrite Hr.
Qed.

(** An iteration runs at most the callback of its own token, and only when
    that token is not cancelled. *)
Lemma set_body_calls slot q s :
  calls (snd (set_body slot q s)) = calls s
  ∨ ∃ r, slot = Some r ∧ live_ref (heap s) slot = Some r
         ∧ calls (snd (set_body slot q s)) = calls s ++ [r].
Proof.
  destruct slot as [r|]; [|by left].
  destruct (heap s !! r) as [tok|] eqn:Hr.
  - rewrite (set_body_token _ _ _ _ Hr). cbv zeta.
    destruct (clear_if_budget_frame tok (popped q s))
      as (_ & _ & _ & _ & Hc & _).
    destruct (isCanceled tok) eqn:Hcan; simpl; rewrite Hc; [by left|].
    right. exists r. simpl. by rewrite Hr, Hcan.
  - left. unfold set_body. unfold_monad. simpl. by rewrite Hr.
Qed.

Lemma set_loop_frame q s :
  let s' := snd (set_loop q s) in
  heap s' = heap s ∧ options s' = options s
  ∧ tokenId s' = tokenId s ∧ nextTimer s' = nextTimer s
  ∧ (∀ h x, timers s' !! h = Some x → timers s !! h = Some x)
  ∧ (∃ l, calls s' = calls s ++ l
          ∧ ∀ r, r ∈ l → live_ref (heap s) (Some r) = Some r)
  ∧ (isSignaled s = false → queue s = q →
     isSignaled s' = true → queue s' = []).
Proof.
  revert s. induction q as [|slot q IH]; intros s.
  - cbn. repeat split; try done. exists []. rewrite app_nil_r. split; [done|].
    intros r Hr. by apply elem_of_nil in Hr.
  - cbn [set_loop]. unfold bind.
    pose proof (set_body_frame slot q s) as (Fh & Fs & Fo & Ft & Fn).
    pose proof (set_body_queue slot q s) as Fq.
    pose proof (set_body_timers slot q s) as Ftm.
    pose proof (set_body_calls slot q s) as Fc.
    destruct (set_body slot q s) as [[[|]|msg] s1]; cbn [snd] in *.
    + destruct (IH s1) as (Ih & Io & It & In & Itm & (l & Il & Ilive) & Iq).
      rewrite Fh in *.
      split; [congruence|]. split; [congruence|]. split; [congruence|].
      split; [congruence|]. split; [eauto|]. split.
      * destruct Fc as [Fc|(r & -> & Hlive & Fc)]; rewrite Fc in Il.
        -- exists l. done.
        -- exists (r :: l). rewrite <- app_assoc in Il. split; [done|].
           intros r' [->|Hin]%elem_of_cons; [done|by apply Ilive].
      * intros Hc _. apply Iq; congruence.
    + unfold ret; cbn [snd fst]. repeat split; try done.
      * destruct Fc as [Fc|(r & -> & Hlive & Fc)]; rewrite Fc.
        -- exists []. rewrite app_nil_r. split; [done|].
           intros r Hr. by apply elem_of_nil in Hr.
        -- exists [r]. split; [done|].
           intros r' ->%list_elem_of_singleton. done.
      * congruence.
    + unfold ret; cbn [snd fst]. repeat split; try done.
      * destruct Fc as [Fc|(r & -> & Hlive & Fc)]; rewrite Fc.
        -- exists []. rewrite app_nil_r. split; [done|].
           intros r Hr. by apply elem_of_nil in Hr.
        -- exists [r]. split; [done|].
           intros r' ->%list_elem_of_singleton. done.
      * congruence.
Qed.

(** Cancelling the removed tokens keeps the heap's domain, only sets
    [isCanceled], and only removes timers. *)
Lemma cancel_reduced_heap l s r :
  match heap s !! r with
  | Some tok =>
      ∃ tok', heap (snd (cancel_reduced l s)) !! r = Some tok'
      ∧ timeoutId tok' = timeoutId tok
      ∧ (isCanceled tok = true → isCanceled tok' = true)
  | None => heap (snd (cancel_reduced l s)) !! r = None
  end.
Proof.
  revert s. induction l as [|slot l IH]; intros s.
  - cbn. destruct (heap s !! r); eauto.
  - cbn [cancel_reduced]. unfold_monad.
    destruct slot as [r0|]; [|cbn; destruct (heap s !! r); eauto].
    destruct (heap s !! r0) as [tok0|] eqn:Hr0;
      [|cbn; destruct (heap s !! r); eauto].
    assert (∀ s2,
      heap s2 = <[r0 := Token (id tok0) true (callback tok0) (timeoutId tok0)]> (heap s) →
      match heap s !! r with
      | Some tok =>
          ∃ tok', heap (snd (cancel_reduced l s2)) !! r = Some tok'
          ∧ timeoutId tok' = timeoutId tok
          ∧ (isCanceled tok = true → isCanceled tok' = true)
      | None => heap (snd (cancel_reduced l s2)) !! r = None
      end) as Hgen.
    { intros s2 Hs2. specialize (IH s2). rewrite Hs2 in IH.
      destruct (decide (r0 = r)) as [->|Hne].
      - rewrite lookup_insert_eq in IH. rewrite Hr0.
        destruct IH as (tok' & ? & ? & Hc). exists tok'. simpl in *.
        split; [done|]. split; [done|]. intros _. by apply Hc.
      - by rewrite lookup_insert_ne in IH. }
    destruct (timeoutId tok0) as [h|] eqn:Hh0; cbn;
      match goal with |- context [cancel_reduced l ?s0] =>
        specialize (Hgen s0 eq_refl);
        destruct (cancel_reduced l s0) as [[]?]; exact Hgen end.
Qed.

Lemma cancel_reduced_timers l s h x :
  timers (snd (cancel_reduced l s)) !! h = Some x → timers s !! h = Some x.
Proof.
  revert s. induction l as [|slot l IH]; intros s; [done|].
  cbn [cancel_reduced]. unfold_monad.
  destruct slot as [r0|]; [|done].
  destruct (heap s !! r0) as [tok0|] eqn:Hr0; [|done].
  destruct (timeoutId tok0) as [h0|]; cbn;
    match goal with |- context [cancel_reduced l ?s0] =>
      specialize (IH s0); destruct (cancel_reduced l s0) as [[]?] end;
    cbn in *; intros H; specialize (IH H);
    try (apply lookup_delete_Some in IH; by destruct IH); done.
Qed.

(** ** What [wait] does to the heap and the timers *)

Lemma wait_state f t s :
  snd (wait (Fn f) t s)
  = snd (cancel_reduced
           (snd (reduceQueue (queue (wait_enter f t s)) (options (wait_enter f t s))))
           (with_queue
              (fst (reduceQueue (queue (wait_enter f t s)) (options (wait_enter f t s))))
              (wait_enter f t s))).
Proof.
  rewrite wait_eq. cbv zeta. destruct (reduceQueue _ _) as [q red]. cbn [fst snd].
  by destruct (cancel_reduced red _) as [[]?].
Qed.

Lemma wait_enter_tokenId f t s : tokenId (wait_enter f t s) = S (tokenId s).
Proof.
  unfold wait_enter, place_token, arm. unfold_monad.
  destruct (Js.truthy t); simpl; destruct (isSignaled s); simpl;
    try destruct (Js.is_zero _); reflexivity.
Qed.

Lemma wait_enter_nextTimer f t s :
  nextTimer (wait_enter f t s)
  = if Js.truthy t then S (nextTimer s) else nextTimer s.
Proof.
  unfold wait_enter, place_token, arm. unfold_monad.
  destruct (Js.truthy t); simpl; destruct (isSignaled s); simpl;
    try destruct (Js.is_zero _); reflexivity.
Qed.

Lemma wait_enter_timers f t s :
  timers (wait_enter f t s)
  = if Js.truthy t then <[nextTimer s := tokenId s]> (timers s) else timers s.
Proof.
  unfold wait_enter, place_token, arm. unfold_monad.
  destruct (Js.truthy t); simpl; destruct (isSignaled s); simpl;
    try destruct (Js.is_zero _); reflexivity.
Qed.

Lemma wait_enter_calls f t s :
  calls (wait_enter f t s)
  = if isSignaled s then calls s ++ [tokenId s] else calls s.
Proof.
  unfold wait_enter, place_token, arm. unfold_monad.
  destruct (Js.truthy t); simpl; destruct (isSignaled s); simpl;
    try destruct (Js.is_zero _); reflexivity.
Qed.

Lemma wait_enter_heap f t s :
  heap (wait_enter f t s)
  = <[tokenId s :=
        Token (tokenId s) false f
              (if Js.truthy t then Some (nextTimer s) else None)]> (heap s).
Proof.
  unfold wait_enter, place_token, arm. unfold_monad.
  destruct (Js.truthy t); simpl; destruct (isSignaled s); simpl;
    try destruct (Js.is_zero _); simpl;
    rewrite ?alter_insert_eq; reflexivity.
Qed.

(** ** Every step of a client *)

Lemma step_options o s : options (step o s) = options s.
Proof.
  destruct o as [cb t| | |h]; cbn [step].
  - apply wait_options.
  - unfold set. unfold_monad. destruct (bool_decide _); [done|].
    destruct (set_loop_frame (queue s)
      (with_callbacksCount (autoResetCount (options s)) s)) as (_ & Ho & _).
    exact Ho.
  - unfold reset. unfold_monad. by destruct (bool_decide _).
  - unfold fire. by destruct (timers s !! h).
Qed.

Lemma step_tokenId o s : tokenId s ≤ tokenId (step o s).
Proof.
  destruct o as [[f|] t| | |h]; cbn [step].
  - destruct (wait_gate f t s) as (_ & _ & _ & _ & _ & Ht & _).
    cbv zeta in Ht. rewrite Ht, wait_enter_tokenId. lia.
  - done.
  - unfold set. unfold_monad. destruct (bool_decide _); [done|].
    destruct (set_loop_frame (queue s)
      (with_callbacksCount (autoResetCount (options s)) s))
      as (_ & _ & Ht & _).
    cbv zeta in Ht. by rewrite Ht.
  - unfold reset. unfold_monad. by destruct (bool_decide _).
  - unfold fire. by destruct (timers s !! h).
Qed.

(** *** A signaled gate has an empty queue *)

Lemma keeps_empty_nonnegative o z :
  maxQueueSize o = VNum (Fin z) → (0 ≤ z)%Z → keeps_empty o.
Proof.
  intros Hm Hz. unfold keeps_empty, reduceQueue. rewrite Hm. simpl.
  destruct (Z.ltb_spec z (Z.of_nat 0)); [simpl in *; lia|done].
Qed.

Lemma keeps_empty_not_last o :
  overflowStrategy o ≠ "last"%string → keeps_empty o.
Proof.
  intros Hs. unfold keeps_empty, reduceQueue.
  destruct (Js.not_a_bound _); [done|]. destruct (Js.gt _ _); [|done].
  destruct (String.eqb_spec (overflowStrategy o) "last"); [done|].
  by destruct (String.eqb _ _).
Qed.

(** Apart from that one set of options, every operation keeps the queue of a
    signaled gate empty. *)
Lemma step_open_has_empty_queue o s :
  keeps_empty (options s) →
  open_has_empty_queue s → open_has_empty_queue (step o s).
Proof.
  unfold open_has_empty_queue, keeps_empty. intros Hk Hinv.
  destruct o as [[f|] t| | |h]; cbn [step].
  - destruct (isSignaled s) eqn:Hs.
    + intros _. rewrite wait_queue. unfold queue_before_reduce.
      by rewrite Hs, Hinv.
    + intros Ho. by rewrite wait_closed in Ho.
  - done.
  - destruct (isSignaled s) eqn:Hs.
    + rewrite (set_open _ Hs). cbn. intros _. by apply Hinv.
    + rewrite (set_closed _ Hs).
      destruct (set_loop_frame (queue s)
        (with_callbacksCount (autoResetCount (options s)) s))
        as (_ & _ & _ & _ & _ & _ & Hq).
      by apply Hq.
  - destruct (isSignaled s) eqn:Hs.
    + by rewrite (reset_open _ Hs).
    + rewrite (reset_closed _ Hs). cbn. congruence.
  - unfold fire. by destruct (timers s !! h).
Qed.

Lemma run_open_has_empty_queue ops b o :
  keeps_empty (extend defaultOptions o) →
  open_has_empty_queue (run ops (ResetEvent b o)).
Proof.
  intros Hk.
  assert (∀ s, options s = extend defaultOptions o →
               open_has_empty_queue s → open_has_empty_queue (run ops s)) as H.
  { induction ops as [|op ops IH]; intros s Ho Hinv; [done|].
    cbn [run fold_left]. apply IH.
    - by rewrite step_options.
    - apply step_open_has_empty_queue; [by rewrite Ho|done]. }
  apply H; done.
Qed.

(** *** The queue bound in every state a client can reach *)

Lemma set_loop_queue_length q s :
  queue s = q → length (queue (snd (set_loop q s))) ≤ length q.
Proof.
  revert s. induction q as [|slot q IH]; intros s Hq.
  - cbn. by rewrite Hq.
  - cbn [set_loop]. unfold bind.
    pose proof (set_body_queue slot q s) as Fq.
    destruct (set_body slot q s) as [[[|]|msg] s1]; cbn [snd length] in *.
    + specialize (IH s1 Fq). lia.
    + unfold ret. cbn [snd]. rewrite Fq. lia.
    + rewrite Fq. lia.
Qed.

Lemma le_len_shorter {A B} (q : list A) (q' : list B) m :
  length q' ≤ length q →
  Js.le (Js.len q) m = true → Js.le (Js.len q') m = true.
Proof.
  unfold Js.len. intros Hlen. destruct m; simpl; try done.
  intros H%Z.leb_le. apply Z.leb_le. lia.
Qed.

Lemma le_len_succ {A} (q : list A) m :
  Js.le (Js.len q) m = true → Js.le (Js.len q) (Js.succ m) = true.
Proof.
  unfold Js.len. destruct m; simpl; try done.
  intros H%Z.leb_le. apply Z.leb_le. lia.
Qed.

Lemma step_bound o s m :
  maxQueueSize (options s) = VNum m →
  known_strategy (options s) →
  Js.le (floor (options s)) m = true →
  Js.le (Js.len (queue s)) m = true →
  Js.le (Js.len (queue (step o s))) m = true.
Proof.
  intros Hm Hk Hf Hq. destruct o as [[f|] t| | |h]; cbn [step].
  - rewrite wait_queue. unfold queue_before_reduce.
    apply reduceQueue_bound; try done. intros _.
    destruct (isSignaled s); [by apply le_len_succ|by apply le_len_snoc].
  - done.
  - destruct (isSignaled s) eqn:Hs.
    + by rewrite (set_open _ Hs).
    + rewrite (set_closed _ Hs).
      eapply le_len_shorter; [|exact Hq].
      by apply set_loop_queue_length.
  - unfold reset. unfold_monad. by destruct (bool_decide _).
  - unfold fire. by destruct (timers s !! h).
Qed.

(** Whatever a client does with a gate constructed with such options, the
    queue stays within the bound. *)
Lemma run_bound ops b o m :
  maxQueueSize (extend defaultOptions o) = VNum m →
  known_strategy (extend defaultOptions o) →
  Js.le (floor (extend defaultOptions o)) m = true →
  Js.le (Js.len (queue (run ops (ResetEvent b o)))) m = true.
Proof.
  intros Hm Hk Hf.
  assert (∀ s, options s = extend defaultOptions o →
               Js.le (Js.len (queue s)) m = true →
               Js.le (Js.len (queue (run ops s))) m = true) as H.
  { induction ops as [|op ops IH]; intros s Ho Hq; [done|].
    cbn [run fold_left]. apply IH.
    - by rewrite step_options.
    - apply step_bound; by rewrite ?Ho. }
  apply H; [done|]. cbn [queue ResetEvent new_ResetEvent]. unfold floor in Hf.
  destruct m as [z| | |]; try done;
    destruct (String.eqb _ _); cbn in *; try done;
    apply Z.leb_le in Hf; apply Z.leb_le; lia.
Qed.

(** *** [wait] returns its token *)

Lemma pop_loop_elems fuel m q result x :
  x ∈ snd (pop_loop fuel m q result) → x ∈ q ∨ x ∈ result.
Proof.
  revert q result. induction fuel as [|fuel IH]; intros q result; [by right|].
  cbn [pop_loop]. destruct (_ && _) eqn:Hc; [|by right].
  destruct (snoc_cases q) as [->|(q0 & y & ->)]; [done|].
  pop_simpl. intros [H|H]%IH.
  - left. apply elem_of_app. by left.
  - apply elem_of_cons in H as [->|H]; [|by right].
    left. apply elem_of_app. right. by apply list_elem_of_singleton.
Qed.

Lemma shift_loop_elems m q result x :
  x ∈ snd (shift_loop m q result) → x ∈ q ∨ x ∈ result.
Proof.
  revert result. induction q as [|y q IH]; intros result; [by right|].
  cbn [shift_loop]. destruct (Js.gt _ _); [|by right].
  intros [H|H]%IH.
  - left. by apply elem_of_cons; right.
  - apply elem_of_app in H as [H|H]; [by right|].
    apply list_elem_of_singleton in H as ->.
    left. by apply elem_of_cons; left.
Qed.

(** Whatever [reduceQueue] returns as removed was a slot of the queue. *)
Lemma reduceQueue_removed q o x : x ∈ snd (reduceQueue q o) → x ∈ q.
Proof.
  unfold reduceQueue. destruct (Js.not_a_bound _); [by intros ?%elem_of_nil|].
  destruct (Js.gt _ _); [|by intros ?%elem_of_nil].
  destruct (String.eqb _ "last").
  - destruct (snoc_cases q) as [->|(q0 & y & ->)].
    + cbn. by intros ?%elem_of_nil.
    + pop_simpl.
      pose proof (pop_loop_elems (length q0) (Js.to_number (maxQueueSize o))
                    q0 [] x) as H.
      destruct (pop_loop _ _ _ _) as [q2 res]. cbn [snd] in *.
      intros [Hx|Hx%elem_of_nil]%H; [|done]. apply elem_of_app. by left.
  - destruct (String.eqb _ "first").
    + intros [Hx|Hx%elem_of_nil]%shift_loop_elems; done.
    + destruct (_ && _) eqn:Hc; [|by intros ?%elem_of_nil].
      destruct (snoc_cases q) as [->|(q0 & y & ->)]; [done|].
      pop_simpl. cbn. intros ->%list_elem_of_singleton.
      apply elem_of_app. right. by apply list_elem_of_singleton.
Qed.

Lemma is_token_insert hp r tok slot :
  is_token hp slot = true → is_token (<[r := tok]> hp) slot = true.
Proof.
  destruct slot as [r'|]; [|done]. simpl. rewrite !bool_decide_eq_true.
  intros [tok' H]. destruct (decide (r = r')) as [->|Hne].
  - rewrite lookup_insert_eq. eauto.
  - rewrite lookup_insert_ne by done. eauto.
Qed.

(** The loop over the removed tokens runs to its end when they are tokens. *)
Lemma cancel_reduced_returns l s :
  (∀ x, x ∈ l → is_token (heap s) x = true) →
  fst (cancel_reduced l s) = Return tt.
Proof.
  revert s. induction l as [|slot l IH]; intros s Hok; [done|].
  cbn [cancel_reduced]. unfold_monad.
  destruct (is_token_Some (heap s) slot) as (r & tok & -> & Hr).
  { apply Hok. by apply elem_of_cons; left. }
  rewrite Hr.
  destruct (timeoutId tok) as [h|]; cbn;
    match goal with |- context [cancel_reduced l ?s0] =>
      specialize (IH s0); destruct (cancel_reduced l s0) as [[[]|]?] end;
    cbn in *; try done;
    exfalso; assert (Return () = @Throw unit msg) as Habs; try done;
    symmetry; apply IH; intros x Hx; apply is_token_insert, Hok;
    by apply elem_of_cons; right.
Qed.

Lemma wait_returns f t s :
  forallb (is_token (heap s)) (queue s) = true →
  fst (wait (Fn f) t s) = Return (tokenId s).
Proof.
  intros Hok. rewrite wait_eq. cbv zeta.
  pose proof (reduceQueue_removed (queue (wait_enter f t s))
                (options (wait_enter f t s))) as Hred.
  destruct (reduceQueue _ _) as [q red]. cbn [snd] in Hred.
  pose proof (cancel_reduced_returns red (with_queue q (wait_enter f t s))) as H.
  destruct (cancel_reduced red _) as [[[]|msg] s']; [done|].
  exfalso. cbn [fst] in H. assert (@Throw unit msg = Return ()) as Habs; [|done].
  apply H. intros x Hx%Hred. cbn [heap with_queue].
  rewrite wait_enter_heap. rewrite wait_enter_queue in Hx.
  unfold queue_before_reduce in Hx.
  assert (x ∈ queue s ∨ x = Some (tokenId s)) as [Hin| ->].
  { destruct (isSignaled s); [by left|].
    apply elem_of_app in Hx as [Hx|Hx]; [by left|].
    apply list_elem_of_singleton in Hx. by right. }
  - apply is_token_insert. rewrite forallb_forall in Hok.
    apply Hok. by apply list_elem_of_In.
  - simpl. apply bool_decide_eq_true. rewrite lookup_insert_eq. eauto.
Qed.

(** ** Tokens whose timer has fired *)




(** ** Tokens without a timer *)

Lemma step_untimed r o s : untimed r s → untimed r (step o s).
Proof.
  intros (Hlt & Hno). split; [pose proof (step_tokenId o s); lia|].
  intros h Hh. destruct o as [[f|] t| | |h']; cbn [step] in Hh.
  - rewrite wait_state in Hh. apply cancel_reduced_timers in Hh.
    cbn [timers with_queue] in Hh. rewrite wait_enter_timers in Hh.
    destruct (Js.truthy t); [|by apply (Hno h)].
    apply lookup_insert_Some in Hh as [[_ ?]|[_ ?]]; [lia|by apply (Hno h)].
  - by apply (Hno h).
  - destruct (isSignaled s) eqn:Hs.
    + rewrite (set_open _ Hs) in Hh. by apply (Hno h).
    + rewrite (set_closed _ Hs) in Hh.
      destruct (set_loop_frame (queue s)
        (with_callbacksCount (autoResetCount (options s)) s))
        as (_ & _ & _ & _ & Htm & _).
      apply Htm in Hh. by apply (Hno h).
  - unfold reset in Hh. unfold_monad.
    destruct (bool_decide _); by apply (Hno h).
  - unfold fire in Hh. destruct (timers s !! h') as [r'|]; [|by apply (Hno h)].
    cbn [timers with_timers with_heap] in Hh.
    apply lookup_delete_Some in Hh as [_ Hh]. by apply (Hno h).
Qed.

Lemma run_untimed r ops s : untimed r s → untimed r (run ops s).
Proof.
  revert s. induction ops as [|o ops IH]; intros s Hu; [done|].
  cbn [run fold_left]. by apply IH, step_untimed.
Qed.

(** A timer that expires leaves such a token as it is. *)
Lemma fire_untimed r h s : untimed r s → heap (fire h s) !! r = heap s !! r.
Proof.
  intros (_ & Hno). unfold fire. destruct (timers s !! h) as [r'|] eqn:Hh; [|done].
  unfold with_timers, with_heap. cbn [heap].
  apply lookup_alter_ne. intros ->. by apply (Hno h).
Qed.

(** ** The scenarios of the specification *)

(** Scenario A: closed gate, [maxQueueSize: 2], default strategy ['this'];
    the third token is the one removed and cancelled. *)
Example scenario_reject_newest :
  queue (run three_waits
    (ResetEvent false (MkOptionsArg (Some (VNum (Fin 2))) None None)))
  = [Some 0; Some 1]
  ∧ isCanceled <$> heap (run three_waits
      (ResetEvent false (MkOptionsArg (Some (VNum (Fin 2))) None None))) !! 2
    = Some true.
Proof. vm_compute. done. Qed.

(** Scenario B: the same with ['first']; the first token is removed. *)
Example scenario_drop_oldest :
  queue (run three_waits
    (ResetEvent false
       (MkOptionsArg (Some (VNum (Fin 2))) (Some "first"%string) None)))
  = [Some 1; Some 2]
  ∧ isCanceled <$> heap (run three_waits
      (ResetEvent false
         (MkOptionsArg (Some (VNum (Fin 2))) (Some "first"%string) None))) !! 0
    = Some true.
Proof. vm_compute. done. Qed.

(** Scenario D: a token queued with a timeout of 50 whose timer expires is
    cancelled, and the release that follows does not run its callback. *)
Example scenario_timeout :
  isCanceled <$> heap (run [OpWait (Fn 0) (VNum (Fin 50)); OpFire 0]
                         (ResetEvent false noOptions)) !! 0 = Some true
  ∧ calls (run [OpWait (Fn 0) (VNum (Fin 50)); OpFire 0; OpSet]
             (ResetEvent false noOptions)) = [].
Proof. vm_compute. done. Qed.

(** * The properties of the specification *)

(** ** C1: a release with a budget within the queue *)

(** C1, as stated, fails for a release count of 0: with one token queued and
    [autoResetCount: 0] (so 0 <= 1), [set] runs the callback and leaves the
    gate signaled with an empty queue. *)
Lemma release_count_zero_drains :
  isSignaled (closed_with_waiters 1 (VNum (Fin 0))) = false
  ∧ live_refs (heap (closed_with_waiters 1 (VNum (Fin 0))))
              (queue (closed_with_waiters 1 (VNum (Fin 0)))) = [0]
  ∧ calls (closed_with_waiters 1 (VNum (Fin 0))) = []
  ∧ calls (snd (set (closed_with_waiters 1 (VNum (Fin 0))))) = [0]
  ∧ isSignaled (snd (set (closed_with_waiters 1 (VNum (Fin 0))))) = true
  ∧ queue (snd (set (closed_with_waiters 1 (VNum (Fin 0))))) = [].
Proof. vm_compute. done. Qed.

(** C1 (amended): on a closed gate whose queue holds tokens, [N] of them not
    cancelled, [set] with [autoResetCount = K] where [1 <= K <= N] runs
    exactly [K] callbacks, those of the first [K] non-cancelled tokens in
    queue order (oldest first); afterwards the gate is still closed and
    [N - K] non-cancelled tokens remain queued (the queue is the old one
    without its first [K] slots when no queued token was cancelled). *)
Theorem release_runs_first_K (s : state) (K : Z) :
  isSignaled s = false →
  forallb (is_token (heap s)) (queue s) = true →
  autoResetCount (options s) = VNum (Fin K) →
  (1 ≤ K ≤ Z.of_nat (length (live_refs (heap s) (queue s))))%Z →
  fst (set s) = Return tt
  ∧ calls (snd (set s))
    = calls s ++ take (Z.to_nat K) (live_refs (heap s) (queue s))
  ∧ length (take (Z.to_nat K) (live_refs (heap s) (queue s))) = Z.to_nat K
  ∧ isSignaled (snd (set s)) = false
  ∧ length (live_refs (heap (snd (set s))) (queue (snd (set s))))
    = length (live_refs (heap s) (queue s)) - Z.to_nat K
  ∧ (length (live_refs (heap s) (queue s)) = length (queue s) →
     queue (snd (set s)) = drop (Z.to_nat K) (queue s)).
Proof.
  intros Hc Hok HK Hrange.
  destruct (set_spec s Hc Hok) as (Hret & Hheap & _ & H).
  unfold exhausts in H. rewrite HK in H. cbn [Js.to_number] in H.
  replace ((1 <=? K)%Z && (K <=? _)%Z) with true in H
    by (symmetry; apply andb_true_iff; rewrite !Z.leb_le; lia).
  destruct H as (z & [= <-] & Hcalls & Hqueue & Hsig).
  split; [done|]. split; [done|].
  split; [rewrite length_take; lia|]. split; [done|].
  rewrite Hheap, Hqueue. split.
  - rewrite live_refs_after_live by lia. rewrite length_drop. done.
  - intros Hall. apply after_live_all_live; [done|lia].
Qed.

Lemma release_runs_first_K_witness :
  calls (snd (set (closed_with_waiters 3 (VNum (Fin 2))))) = [0; 1]
  ∧ isSignaled (snd (set (closed_with_waiters 3 (VNum (Fin 2))))) = false
  ∧ queue (snd (set (closed_with_waiters 3 (VNum (Fin 2))))) = [Some 2].
Proof.
  destruct (release_runs_first_K (closed_with_waiters 3 (VNum (Fin 2))) 2)
    as (_ & Hcalls & _ & Hsig & _ & Hq);
    [reflexivity | reflexivity | reflexivity | vm_compute; split; discriminate |].
  split; [exact Hcalls|]. split; [exact Hsig|]. apply Hq. reflexivity.
Defined.

(** ** C2: a release that drains the queue *)

(** C2, as stated, fails when the release count equals the number of queued
    tokens: with one token queued and [autoResetCount: 1] the callback runs
    and the queue empties, but [set] returns from inside the loop and the
    gate stays closed. *)
Lemma release_count_equal_stays_closed :
  isSignaled (closed_with_waiters 1 (VNum (Fin 1))) = false
  ∧ length (queue (closed_with_waiters 1 (VNum (Fin 1)))) = 1
  ∧ calls (snd (set (closed_with_waiters 1 (VNum (Fin 1))))) = [0]
  ∧ queue (snd (set (closed_with_waiters 1 (VNum (Fin 1))))) = []
  ∧ isSignaled (snd (set (closed_with_waiters 1 (VNum (Fin 1))))) = false.
Proof. vm_compute. done. Qed.

(** C2 (amended): on a closed gate whose queue holds tokens, [set] with an
    [autoResetCount] that is unbounded, or any number outside [1 .. N] where
    [N] is the number of non-cancelled queued tokens (so every count above
    [N]), runs the callback of every non-cancelled queued token in queue
    order, empties the queue and leaves the gate signaled. *)
Theorem release_drains_queue (s : state) :
  isSignaled s = false →
  forallb (is_token (heap s)) (queue s) = true →
  exhausts (autoResetCount (options s))
           (length (live_refs (heap s) (queue s))) = false →
  fst (set s) = Return tt
  ∧ calls (snd (set s)) = calls s ++ live_refs (heap s) (queue s)
  ∧ queue (snd (set s)) = []
  ∧ isSignaled (snd (set s)) = true.
Proof.
  intros Hc Hok Hex.
  destruct (set_spec s Hc Hok) as (Hret & _ & _ & H).
  rewrite Hex in H. done.
Qed.

Lemma release_drains_queue_witness :
  fst (set (closed_with_waiters 3 (VNum PInf))) = Return tt
  ∧ calls (snd (set (closed_with_waiters 3 (VNum PInf)))) = [0; 1; 2]
  ∧ queue (snd (set (closed_with_waiters 3 (VNum PInf)))) = []
  ∧ isSignaled (snd (set (closed_with_waiters 3 (VNum PInf)))) = true.
Proof.
  apply (release_drains_queue (closed_with_waiters 3 (VNum PInf)));
    reflexivity.
Defined.

(** ** C3: the queue bound under [wait] *)

(** C3, as stated, fails: with [maxQueueSize: 0] and ['last'] the first [wait]
    on a closed gate returns with one token queued. *)
Lemma queue_bound_fails_at_zero_last :
  isSignaled zero_bound_last = false
  ∧ maxQueueSize (options zero_bound_last) = VNum (Fin 0)
  ∧ overflowStrategy (options zero_bound_last) = "last"%string
  ∧ queueSize (run (waits [(Fn 0, VUndefined)]) zero_bound_last) = 1
  ∧ Js.le (Js.len (queue (run (waits [(Fn 0, VUndefined)]) zero_bound_last)))
          (Fin 0) = false.
Proof. vm_compute. done. Qed.

(** C3 (amended): with a numeric [maxQueueSize] of at least 0 (at least 1 for
    the ['last'] strategy) and any of the three strategies, every sequence of
    [wait] calls on a closed gate whose queue is within the bound leaves the
    gate closed and the queue length at most [maxQueueSize]. *)
Theorem queue_bound_after_waits (s : state) (m : num) (ws : list (jsarg * value)) :
  isSignaled s = false →
  maxQueueSize (options s) = VNum m →
  known_strategy (options s) →
  Js.le (floor (options s)) m = true →
  Js.le (Js.len (queue s)) m = true →
  isSignaled (run (waits ws) s) = false
  ∧ Js.le (Js.len (queue (run (waits ws) s))) m = true.
Proof.
  revert s. induction ws as [|[cb t] ws IH]; intros s Hc Hm Hk Hf Hq; [done|].
  cbn [waits map run fold_left step fst snd].
  apply IH; rewrite ?wait_options; try done.
  - by apply wait_closed.
  - by apply wait_bound.
Qed.

Lemma queue_bound_after_waits_witness :
  isSignaled
    (run (waits [(Fn 0, VUndefined); (Fn 1, VNum (Fin 50)); (Fn 2, VUndefined)])
       (ResetEvent false
          (MkOptionsArg (Some (VNum (Fin 2))) (Some "last"%string) None))) = false
  ∧ Js.le
      (Js.len (queue
        (run (waits [(Fn 0, VUndefined); (Fn 1, VNum (Fin 50)); (Fn 2, VUndefined)])
           (ResetEvent false
              (MkOptionsArg (Some (VNum (Fin 2))) (Some "last"%string) None)))))
      (Fin 2) = true.
Proof.
  apply (queue_bound_after_waits
           (ResetEvent false
              (MkOptionsArg (Some (VNum (Fin 2))) (Some "last"%string) None))
           (Fin 2)).
  - reflexivity.
  - reflexivity.
  - left. reflexivity.
  - reflexivity.
  - reflexivity.
Defined.

(** ** C4: a gate constructed signaled *)

(** C4: the constructor leaves [callbacksCount] unassigned, so on a gate
    constructed signaled the first [wait] turns it into [NaN], which never
    equals 0: all three callbacks run at once, the gate is still signaled
    after the second and after the third [wait], and nothing is queued. *)
Theorem constructed_open_never_closes :
  callbacksCount open_with_count_two = VUndefined
  ∧ calls (run (take 2 three_waits) open_with_count_two) = [0; 1]
  ∧ isSignaled (run (take 2 three_waits) open_with_count_two) = true
  ∧ callbacksCount (run (take 2 three_waits) open_with_count_two) = VNum NaN
  ∧ calls (run three_waits open_with_count_two) = [0; 1; 2]
  ∧ isSignaled (run three_waits open_with_count_two) = true
  ∧ queue (run three_waits open_with_count_two) = [].
Proof. vm_compute. done. Qed.

(** The same three calls once a [set] has assigned the budget (the gate is
    constructed closed and released with an empty queue): two callbacks run,
    the second closes the gate, the third token is queued. *)
Lemma released_open_closes_after_two :
  isSignaled (run [OpSet] (ResetEvent false
      (MkOptionsArg None None (Some (VNum (Fin 2)))))) = true
  ∧ calls (run (OpSet :: take 2 three_waits) (ResetEvent false
      (MkOptionsArg None None (Some (VNum (Fin 2)))))) = [0; 1]
  ∧ isSignaled (run (OpSet :: take 2 three_waits) (ResetEvent false
      (MkOptionsArg None None (Some (VNum (Fin 2)))))) = false
  ∧ calls (run (OpSet :: three_waits) (ResetEvent false
      (MkOptionsArg None None (Some (VNum (Fin 2)))))) = [0; 1]
  ∧ queue (run (OpSet :: three_waits) (ResetEvent false
      (MkOptionsArg None None (Some (VNum (Fin 2)))))) = [Some 2].
Proof. vm_compute. done. Qed.

(** ** C5: the ['last'] strategy *)

(** C5, as stated, fails: with [maxQueueSize: 0] the ['last'] strategy is
    triggered by the first [wait] (one token against a bound of 0) and leaves
    one token queued, not [maxQueueSize] of them. *)
Lemma last_policy_fails_at_zero :
  maxQueueSize (options zero_bound_last) = VNum (Fin 0)
  ∧ overflowStrategy (options zero_bound_last) = "last"%string
  ∧ Js.gt (Js.len (queue_before_reduce zero_bound_last)) (Fin 0) = true
  ∧ queue (snd (wait (Fn 0) VUndefined zero_bound_last)) = [Some 0]
  ∧ queueSize (snd (wait (Fn 0) VUndefined zero_bound_last)) ≠ 0.
Proof. vm_compute. repeat split; done. Qed.

(** C5 (amended): when a [wait] call triggers the ['last'] strategy and
    [maxQueueSize] is at least 1, [reduceQueue] keeps the oldest
    [maxQueueSize - 1] slots followed by the newest one and returns the slots
    in between (the next-newest ones) as removed; the queue [wait] leaves has
    exactly [maxQueueSize] slots. *)
Theorem last_policy_keeps_oldest_and_newest
    (s : state) (f : nat) (t : value) (z : Z) (q : list (option nat)) (x : option nat) :
  overflowStrategy (options s) = "last"%string →
  maxQueueSize (options s) = VNum (Fin z) →
  (1 ≤ z)%Z →
  queue_before_reduce s = q ++ [x] →
  Js.gt (Js.len (q ++ [x])) (Fin z) = true →
  reduceQueue (q ++ [x]) (options s)
  = (take (Z.to_nat (z - 1)) q ++ [x], drop (Z.to_nat (z - 1)) q)
  ∧ queue (snd (wait (Fn f) t s)) = take (Z.to_nat (z - 1)) q ++ [x]
  ∧ Z.of_nat (queueSize (snd (wait (Fn f) t s))) = z.
Proof.
  intros Hs Hm Hz Hq Hgt. apply Z.ltb_lt in Hgt.
  pose proof (reduceQueue_last q x (options s) z Hs Hm Hz Hgt) as Hred.
  split; [done|]. unfold queueSize. rewrite wait_queue, Hq, Hred. cbn [fst].
  split; [done|]. rewrite length_app, length_take. rewrite length_app in Hgt.
  simpl in *. lia.
Qed.

Lemma last_policy_keeps_oldest_and_newest_witness :
  queue (snd (wait (Fn 9) VUndefined
    (run (waits [(Fn 0, VUndefined); (Fn 1, VUndefined); (Fn 2, VUndefined)])
       (ResetEvent false
          (MkOptionsArg (Some (VNum (Fin 3))) (Some "last"%string) None)))))
  = [Some 0; Some 1; Some 3].
Proof.
  refine (proj1 (proj2 (last_policy_keeps_oldest_and_newest
    (run (waits [(Fn 0, VUndefined); (Fn 1, VUndefined); (Fn 2, VUndefined)])
       (ResetEvent false
          (MkOptionsArg (Some (VNum (Fin 3))) (Some "last"%string) None)))
    9 VUndefined 3 [Some 0; Some 1; Some 2] (Some 3) _ _ _ _ _)));
    [reflexivity | reflexivity | lia | reflexivity | reflexivity].
Defined.

(** ** C6: a token whose timer has fired *)



(** ** C7: which timers a release clears *)

(** C7: an iteration of the release loop on a token that carries the handle
    [h] of a pending timer clears that timer if and only if the budget is
    still above 0 after being decremented for the token; in particular, when
    the token is the one whose callback uses up the budget, [set] returns with
    the timer still pending. *)
Theorem timer_cleared_iff_budget_left
    (s : state) (r : nat) (tok : token) (h : nat) (q : list (option nat)) :
  heap s !! r = Some tok →
  timeoutId tok = Some h →
  is_Some (timers s !! h) →
  (timers (snd (set_body (Some r) q s)) !! h = None
   ↔ Js.gt_zero (Js.decr (callbacksCount s)) = true)
  ∧ timers (snd (set_body (Some r) q s))
    = (if Js.gt_zero (Js.decr (callbacksCount s)) then delete h (timers s)
       else timers s)
  ∧ (isCanceled tok = false →
     Js.to_number (callbacksCount s) = Fin 1 →
     fst (set_loop (Some r :: q) s) = Return tt
     ∧ calls (snd (set_loop (Some r :: q) s)) = calls s ++ [r]
     ∧ timers (snd (set_loop (Some r :: q) s)) = timers s
     ∧ is_Some (timers (snd (set_loop (Some r :: q) s)) !! h)).
Proof.
  intros Hr Hh Hpending.
  assert (timers (snd (set_body (Some r) q s))
          = (if Js.gt_zero (Js.decr (callbacksCount s)) then delete h (timers s)
             else timers s)) as Ht.
  { rewrite (set_body_token _ _ _ _ Hr). cbv zeta.
    unfold clear_if_budget, popped. rewrite Hh. simpl.
    destruct (Js.gt_zero _); destruct (isCanceled tok); done. }
  split; [|split; [done|]].
  - rewrite Ht. destruct (Js.gt_zero _).
    + by rewrite lookup_delete_eq.
    + split; [|done]. intros Hn. rewrite Hn in Hpending. by destruct Hpending.
  - intros Hlive Hone.
    rewrite (set_loop_cons_live _ _ _ _ Hr Hlive). cbv zeta.
    replace (Js.is_zero (Js.decr (callbacksCount s))) with true
      by (symmetry; by apply is_zero_decr).
    cbn [fst snd]. unfold clear_if_budget, popped. rewrite Hh. simpl.
    replace (Js.gt_zero (Js.decr (callbacksCount s))) with false.
    + done.
    + unfold Js.gt_zero, Js.decr. simpl. by rewrite Hone.
Qed.

Lemma timer_cleared_iff_budget_left_witness :
  timers (snd (set_loop [Some 0; Some 1]
    (with_callbacksCount (VNum (Fin 1))
      (run (waits [(Fn 0, VNum (Fin 50)); (Fn 1, VNum (Fin 50))])
         (ResetEvent false noOptions))))) !! 0 = Some 0
  ∧ calls (snd (set_loop [Some 0; Some 1]
    (with_callbacksCount (VNum (Fin 1))
      (run (waits [(Fn 0, VNum (Fin 50)); (Fn 1, VNum (Fin 50))])
         (ResetEvent false noOptions))))) = [0].
Proof.
  destruct (timer_cleared_iff_budget_left
    (with_callbacksCount (VNum (Fin 1))
      (run (waits [(Fn 0, VNum (Fin 50)); (Fn 1, VNum (Fin 50))])
         (ResetEvent false noOptions)))
    0 (Token 0 false 0 (Some 0)) 0 [Some 1])
    as (_ & _ & H); [reflexivity | reflexivity | by eexists |].
  destruct H as (_ & Hcalls & Htimers & _); [reflexivity | reflexivity |].
  split; [by rewrite Htimers | exact Hcalls].
Defined.

(** ** C8: the [reset] / [set] protocol *)

(** C8, as stated, fails: [set] on a closed gate does not always signal it.
    With one token queued and [autoResetCount: 1], [set] succeeds and the
    gate is still closed, so the [reset] that follows throws. *)
Lemma set_then_reset_throws :
  isSignaled (closed_with_waiters 1 (VNum (Fin 1))) = false
  ∧ fst (set (closed_with_waiters 1 (VNum (Fin 1)))) = Return tt
  ∧ isSignaled (snd (set (closed_with_waiters 1 (VNum (Fin 1))))) = false
  ∧ fst (reset (snd (set (closed_with_waiters 1 (VNum (Fin 1))))))
    = Throw "The reset event is already in a non signaled state".
Proof. vm_compute. done. Qed.

(** C8 (amended): [reset] on a signaled gate succeeds and only clears the
    flag; [set] on a signaled gate and [reset] on a non-signaled gate throw
    and leave the state unchanged; [set] on a non-signaled gate (whose queue
    holds tokens) succeeds, and it leaves the gate signaled exactly when the
    release budget does not reach 0 on a callback: always with an unbounded
    [autoResetCount] or an empty queue.  Only then do [reset] and [set]
    alternate. *)
Theorem reset_set_protocol (s : state) :
  (isSignaled s = true →
     reset s = (Return tt, with_isSignaled false s)
     ∧ set s = (Throw "The reset event is already in a signaled state", s))
  ∧ (isSignaled s = false →
     reset s = (Throw "The reset event is already in a non signaled state", s)
     ∧ (forallb (is_token (heap s)) (queue s) = true →
        fst (set s) = Return tt
        ∧ isSignaled (snd (set s))
          = negb (exhausts (autoResetCount (options s))
                           (length (live_refs (heap s) (queue s))))
        ∧ (autoResetCount (options s) = VNum PInf ∨ queue s = [] →
           isSignaled (snd (set s)) = true))).
Proof.
  split.
  - intros Ho. by rewrite (reset_open _ Ho), (set_open _ Ho).
  - intros Hc. split; [by rewrite (reset_closed _ Hc)|]. intros Hok.
    destruct (set_spec s Hc Hok) as (Hret & _ & _ & H).
    assert (isSignaled (snd (set s))
            = negb (exhausts (autoResetCount (options s))
                             (length (live_refs (heap s) (queue s))))) as Hsig.
    { destruct (exhausts _ _); [by destruct H as (? & ? & ? & ? & ?)|].
      by destruct H as (? & ? & ?). }
    split; [done|]. split; [done|]. rewrite Hsig.
    intros [Hinf|Hnil].
    + unfold exhausts. by rewrite Hinf.
    + rewrite Hnil. unfold exhausts. simpl.
      destruct (Js.to_number _) as [z| | |]; try done.
      apply negb_true_iff, andb_false_iff. rewrite !Z.leb_gt. lia.
Qed.

Lemma reset_set_protocol_witness :
  (reset (ResetEvent true noOptions)
     = (Return tt, with_isSignaled false (ResetEvent true noOptions))
   ∧ set (ResetEvent true noOptions)
     = (Throw "The reset event is already in a signaled state",
        ResetEvent true noOptions))
  ∧ (reset (closed_with_waiters 2 (VNum PInf))
     = (Throw "The reset event is already in a non signaled state",
        closed_with_waiters 2 (VNum PInf))
     ∧ fst (set (closed_with_waiters 2 (VNum PInf))) = Return tt
     ∧ isSignaled (snd (set (closed_with_waiters 2 (VNum PInf)))) = true).
Proof.
  split.
  - apply (proj1 (reset_set_protocol (ResetEvent true noOptions))). reflexivity.
  - destruct (proj2 (reset_set_protocol (closed_with_waiters 2 (VNum PInf))))
      as (Hreset & Hset); [reflexivity|].
    destruct Hset as (Hret & _ & Hsig); [reflexivity|].
    split; [exact Hreset|]. split; [exact Hret|].
    apply Hsig. left. reflexivity.
Defined.

(** ** C9: a signaled gate and its queue *)

(** C9: with a negative [maxQueueSize] the ['last'] branch of [reduceQueue]
    pops an empty queue and pushes the [undefined] it got back, so one [wait]
    on a signaled gate leaves the gate signaled with a queue of length 1; the
    release after a [reset] then throws on that slot. *)
Theorem open_gate_gets_undefined_slot :
  isSignaled open_negative_last = true
  ∧ queue open_negative_last = []
  ∧ reduceQueue [] (options open_negative_last) = ([None], [])
  ∧ fst (wait (Fn 0) VUndefined open_negative_last) = Return 0
  ∧ isSignaled (snd (wait (Fn 0) VUndefined open_negative_last)) = true
  ∧ queue (snd (wait (Fn 0) VUndefined open_negative_last)) = [None]
  ∧ queueSize (snd (wait (Fn 0) VUndefined open_negative_last)) = 1
  ∧ fst (set (run [OpWait (Fn 0) VUndefined; OpReset] open_negative_last))
    = Throw "TypeError".
Proof. vm_compute. done. Qed.

(** ** C10: which calls of [wait] arm a timer *)

(** C10, as stated, fails for a negative timeout: [wait(cb, -1)] arms a timer
    although -1 is not strictly positive; the token carries its handle and is
    cancelled when the timer expires. *)
Lemma negative_timeout_arms_timer :
  Js.gt (Fin (-1)) (Fin 0) = false
  ∧ heap (snd (wait (Fn 0) (VNum (Fin (-1))) (ResetEvent false noOptions))) !! 0
    = Some (Token 0 false 0 (Some 0))
  ∧ timers (snd (wait (Fn 0) (VNum (Fin (-1))) (ResetEvent false noOptions))) !! 0
    = Some 0
  ∧ heap (fire 0 (snd (wait (Fn 0) (VNum (Fin (-1)))
                         (ResetEvent false noOptions)))) !! 0
    = Some (Token 0 true 0 None).
Proof. vm_compute. done. Qed.

(** C10 (amended): [wait] calls [setTimeout] exactly when its [timeout]
    argument is truthy (a number other than 0 and [NaN], negative ones
    included).  With a timeout of 0 or none, no timer is armed: the returned
    token has no timer handle and no timer that expires, then or later, ever
    changes it.  With a truthy timeout the returned token carries the handle
    of the new timer. *)
Theorem timer_armed_iff_truthy (s : state) (f : nat) (t : value) :
  forallb (is_token (heap s)) (queue s) = true →
  map_Forall (fun _ r => r < tokenId s) (timers s) →
  fst (wait (Fn f) t s) = Return (tokenId s)
  ∧ nextTimer (snd (wait (Fn f) t s))
    = (if Js.truthy t then S (nextTimer s) else nextTimer s)
  ∧ (∃ tok, heap (snd (wait (Fn f) t s)) !! tokenId s = Some tok
            ∧ timeoutId tok = if Js.truthy t then Some (nextTimer s) else None)
  ∧ (Js.truthy t = false →
     ∀ ops h,
       heap (fire h (run ops (snd (wait (Fn f) t s)))) !! tokenId s
       = heap (run ops (snd (wait (Fn f) t s))) !! tokenId s).
Proof.
  intros Hok Htm. split; [by apply wait_returns|].
  destruct (wait_gate f t s) as (_ & _ & _ & _ & _ & Htok & Hnext).
  cbv zeta in Htok, Hnext. split; [by rewrite Hnext, wait_enter_nextTimer|].
  split.
  - rewrite wait_state.
    match goal with |- context [cancel_reduced ?l ?s0] =>
      pose proof (cancel_reduced_heap l s0 (tokenId s)) as H end.
    cbn [heap with_queue] in H. rewrite wait_enter_heap, lookup_insert_eq in H.
    destruct H as (tok' & H1 & H2 & _). exists tok'. split; [done|].
    by rewrite H2.
  - intros Hfalsy ops h. apply fire_untimed, run_untimed. split.
    + rewrite Htok, wait_enter_tokenId. lia.
    + intros h' Hh'. rewrite wait_state in Hh'.
      apply cancel_reduced_timers in Hh'. cbn [timers with_queue] in Hh'.
      rewrite wait_enter_timers, Hfalsy in Hh'.
      apply Htm in Hh'. lia.
Qed.

Lemma timer_armed_iff_truthy_witness :
  fst (wait (Fn 1) (VNum (Fin 0))
         (run (waits [(Fn 0, VNum (Fin 50))]) (ResetEvent false noOptions)))
  = Return 1
  ∧ nextTimer (snd (wait (Fn 1) (VNum (Fin 0))
         (run (waits [(Fn 0, VNum (Fin 50))]) (ResetEvent false noOptions))))
    = 1.
Proof.
  destruct (timer_armed_iff_truthy
    (run (waits [(Fn 0, VNum (Fin 50))]) (ResetEvent false noOptions))
    1 (VNum (Fin 0))) as (Hret & Hnext & _).
  - reflexivity.
  - apply (bool_decide_unpack _). vm_compute. exact I.
  - split; [exact Hret | exact Hnext].
Defined.

(** * Further properties of the module *)

(** ** [reduceQueue] keeps a queue minus one block *)

Lemma pop_loop_shape fuel m q result :
  ∃ A B, q = A ++ B ∧ pop_loop fuel m q result = (A, B ++ result).
Proof.
  revert q result. induction fuel as [|fuel IH]; intros q result.
  - exists q, []. by rewrite app_nil_r.
  - cbn [pop_loop]. destruct (_ && _) eqn:Hc.
    + destruct (snoc_cases q) as [->|(q0 & x & ->)]; [done|].
      pop_simpl. destruct (IH q0 (x :: result)) as (A & B & -> & ->).
      exists A, (B ++ [x]). by rewrite <- !app_assoc.
    + exists q, []. by rewrite app_nil_r.
Qed.

Lemma shift_loop_shape m q result :
  ∃ B C, q = B ++ C ∧ shift_loop m q result = (C, result ++ B).
Proof.
  revert result. induction q as [|x q IH]; intros result.
  - exists [], []. split; [done|]. cbn. by rewrite app_nil_r.
  - cbn [shift_loop]. destruct (Js.gt _ _).
    + destruct (IH (result ++ [x])) as (B & C & -> & ->).
      exists (x :: B), C. by rewrite <- app_assoc.
    + exists [], (x :: q). split; [done|]. by rewrite app_nil_r.
Qed.

Lemma reduceQueue_nil o :
  reduceQueue [] o = ([], []) ∨ reduceQueue [] o = ([None], []).
Proof.
  unfold reduceQueue. destruct (Js.not_a_bound _); [by left|].
  destruct (Js.gt _ _); [|by left].
  destruct (String.eqb _ "last"); [by right|].
  destruct (String.eqb _ "first"); by left.
Qed.

Lemma reduceQueue_split (q : list (option nat)) (o : Options) :
  q ≠ [] →
  ∃ A B C, q = A ++ B ++ C ∧ reduceQueue q o = (A ++ C, B).
Proof.
  intros Hne.
  assert (∃ A B C, q = A ++ B ++ C ∧ (q, @nil (option nat)) = (A ++ C, B)) as Hid.
  { exists q, [], []. by rewrite !app_nil_r. }
  unfold reduceQueue. destruct (Js.not_a_bound _); [done|].
  destruct (Js.gt _ _); [|done].
  destruct (snoc_cases q) as [->|(q0 & x & ->)]; [done|].
  destruct (String.eqb _ "last").
  - pop_simpl.
    destruct (pop_loop_shape (length q0) (Js.to_number (maxQueueSize o)) q0 [])
      as (A & B & -> & ->).
    exists A, B, [x]. by rewrite app_nil_r, <- app_assoc.
  - destruct (String.eqb _ "first").
    + destruct (shift_loop_shape (Js.to_number (maxQueueSize o)) (q0 ++ [x]) [])
        as (B & C & -> & ->).
      exists [], B, C. done.
    + destruct (_ && _); [|done]. pop_simpl.
      exists q0, [x], []. by rewrite !app_nil_r.
Qed.

(** X1: whatever the options, [reduceQueue] on a non-empty queue takes one
    contiguous block of slots out of it: the queue it leaves is the old one
    without that block, in the old order, and the block is what it returns,
    also in the old order.  Nothing is lost, duplicated or reordered. *)
Theorem reduceQueue_removes_one_block (q : list (option nat)) (o : Options) :
  q ≠ [] →
  (∃ A B C, q = A ++ B ++ C ∧ reduceQueue q o = (A ++ C, B))
  ∧ fst (reduceQueue q o) ++ snd (reduceQueue q o) ≡ₚ q.
Proof.
  intros Hne. destruct (reduceQueue_split q o Hne) as (A & B & C & Hq & Hred).
  split; [by exists A, B, C|]. rewrite Hred, Hq. cbn [fst snd].
  rewrite <- app_assoc. f_equiv. apply Permutation_app_comm.
Qed.

Lemma reduceQueue_removes_one_block_witness :
  ∃ A B C, [Some 0; Some 1; Some 2; Some 3] = A ++ B ++ C
    ∧ reduceQueue [Some 0; Some 1; Some 2; Some 3]
        (MkOptions (VNum (Fin 2)) "last" (VNum PInf)) = (A ++ C, B).
Proof.
  apply (proj1 (reduceQueue_removes_one_block [Some 0; Some 1; Some 2; Some 3]
                  (MkOptions (VNum (Fin 2)) "last" (VNum PInf))
                  ltac:(discriminate))).
Defined.

(** ** The ['first'] and ['this'] strategies *)

Lemma gt_is_bound (q : list (option nat)) (v : value) :
  Js.gt (Js.len q) (Js.to_number v) = true → Js.not_a_bound v = false.
Proof. by destruct v as [|[]]. Qed.

Lemma reduceQueue_this q x o :
  overflowStrategy o = "this"%string →
  Js.gt (Js.len (q ++ [x])) (Js.to_number (maxQueueSize o)) = true →
  reduceQueue (q ++ [x]) o = (q, [x]).
Proof.
  intros Hs Hgt. unfold reduceQueue.
  rewrite (gt_is_bound _ _ Hgt), Hgt, Hs. cbn.
  rewrite length_app. cbn.
  replace (Nat.eqb (length q + 1) 0) with false
    by (symmetry; apply Nat.eqb_neq; lia).
  cbn. by pop_simpl.
Qed.

(** X2: when a [wait] call finds the queue above a finite [maxQueueSize]
    under the ['first'] strategy, [reduceQueue] removes slots from the front
    only: it returns the oldest ones, oldest first, and the queue [wait]
    leaves is the newest [maxQueueSize] slots (none when the bound is
    negative). *)
Theorem first_policy_drops_oldest
    (s : state) (f : nat) (t : value) (z : Z) :
  overflowStrategy (options s) = "first"%string →
  maxQueueSize (options s) = VNum (Fin z) →
  Js.gt (Js.len (queue_before_reduce s)) (Fin z) = true →
  reduceQueue (queue_before_reduce s) (options s)
  = (drop (length (queue_before_reduce s) - Z.to_nat z) (queue_before_reduce s),
     take (length (queue_before_reduce s) - Z.to_nat z) (queue_before_reduce s))
  ∧ queue (snd (wait (Fn f) t s))
    = drop (length (queue_before_reduce s) - Z.to_nat z) (queue_before_reduce s)
  ∧ queueSize (snd (wait (Fn f) t s)) = Z.to_nat z.
Proof.
  intros Hs Hm Hgt.
  assert (reduceQueue (queue_before_reduce s) (options s)
    = (drop (length (queue_before_reduce s) - Z.to_nat z) (queue_before_reduce s),
       take (length (queue_before_reduce s) - Z.to_nat z) (queue_before_reduce s)))
    as Hred.
  { unfold reduceQueue. rewrite Hm, Hs. cbn [Js.not_a_bound Js.to_number].
    rewrite Hgt. cbn. by rewrite shift_loop_fin. }
  split; [done|]. unfold queueSize. rewrite wait_queue, Hred. cbn [fst].
  split; [done|]. rewrite length_drop.
  apply Z.ltb_lt in Hgt. lia.
Qed.

Lemma first_policy_drops_oldest_witness :
  queue (snd (wait (Fn 9) VUndefined
    (closed_gate 3 (MkOptionsArg (Some (VNum (Fin 3))) (Some "first"%string) None))))
  = [Some 1; Some 2; Some 3].
Proof.
  refine (proj1 (proj2 (first_policy_drops_oldest
    (closed_gate 3 (MkOptionsArg (Some (VNum (Fin 3))) (Some "first"%string) None))
    9 VUndefined 3 _ _ _))); reflexivity.
Defined.

(** *** What the loop over the removed tokens does to them *)

Lemma cancel_reduced_other l s r :
  Some r ∉ l → heap (snd (cancel_reduced l s)) !! r = heap s !! r.
Proof.
  revert s. induction l as [|slot l IH]; intros s Hnot; [done|].
  apply not_elem_of_cons in Hnot as [Hne Hnot].
  cbn [cancel_reduced]. unfold_monad.
  destruct slot as [r0|]; [|done].
  destruct (heap s !! r0) as [tok0|] eqn:Hr0; [|done].
  assert (r0 ≠ r) by congruence.
  destruct (timeoutId tok0) as [h|]; cbn;
    match goal with |- context [cancel_reduced l ?s0] =>
      specialize (IH s0 Hnot); destruct (cancel_reduced l s0) as [[]?] end;
    cbn in *; rewrite IH; by apply lookup_insert_ne.
Qed.

Lemma cancel_reduced_cancels l s r :
  (∀ x, x ∈ l → is_token (heap s) x = true) →
  Some r ∈ l →
  ∃ tok tok', heap s !! r = Some tok
    ∧ heap (snd (cancel_reduced l s)) !! r = Some tok'
    ∧ isCanceled tok' = true
    ∧ timeoutId tok' = timeoutId tok
    ∧ (∀ h, timeoutId tok = Some h →
            timers (snd (cancel_reduced l s)) !! h = None).
Proof.
  revert s. induction l as [|slot l IH]; intros s Hok Hin.
  { by apply elem_of_nil in Hin. }
  destruct (is_token_Some (heap s) slot) as (r0 & tok0 & -> & Hr0).
  { apply Hok. by apply elem_of_cons; left. }
  cbn [cancel_reduced]. unfold_monad. rewrite Hr0.
  set (hp1 := <[r0 := Token (id tok0) true (callback tok0) (timeoutId tok0)]> (heap s)).
  assert (∀ s1, heap s1 = hp1 →
            (∀ h, timeoutId tok0 = Some h → timers s1 !! h = None) →
            ∃ tok tok', heap s !! r = Some tok
              ∧ heap (snd (cancel_reduced l s1)) !! r = Some tok'
              ∧ isCanceled tok' = true
              ∧ timeoutId tok' = timeoutId tok
              ∧ (∀ h, timeoutId tok = Some h →
                      timers (snd (cancel_reduced l s1)) !! h = None)) as Hgen.
  { intros s1 Hs1 Htm1.
    assert (∀ h, timers s1 !! h = None →
                 timers (snd (cancel_reduced l s1)) !! h = None) as Hkeep.
    { intros h Hn. destruct (timers (snd (cancel_reduced l s1)) !! h) eqn:E;
        [|done]. apply cancel_reduced_timers in E. congruence. }
    destruct (decide (r = r0)) as [->|Hne].
    - pose proof (cancel_reduced_heap l s1 r0) as H.
      rewrite Hs1 in H. subst hp1. rewrite lookup_insert_eq in H.
      destruct H as (tok' & H1 & H2 & H3). exists tok0, tok'.
      cbn in H2, H3. repeat split; try done; eauto.
    - apply elem_of_cons in Hin as [Heq|Hin]; [congruence|].
      destruct (IH s1) as (tok & tok' & H1 & H2 & H3 & H4 & H5); [|done|].
      { intros x Hx. rewrite Hs1. apply is_token_insert, Hok.
        by apply elem_of_cons; right. }
      rewrite Hs1 in H1. subst hp1. rewrite lookup_insert_ne in H1 by done.
      exists tok, tok'. done. }
  destruct (timeoutId tok0) as [h0|] eqn:Hh0; cbn;
    match goal with |- context [cancel_reduced l ?s0] =>
      destruct (Hgen s0) as (tok & tok' & H1 & H2 & H3 & H4 & H5);
        [done| |destruct (cancel_reduced l s0) as [[]?]; cbn in *; eauto 10] end.
  - intros h [= <-]. cbn. apply lookup_delete_eq.
  - done.
Qed.

Lemma removed_are_tokens f t s x :
  forallb (is_token (heap s)) (queue s) = true →
  x ∈ snd (reduceQueue (queue_before_reduce s) (options s)) →
  is_token (heap (wait_enter f t s)) x = true.
Proof.
  intros Hok Hx%reduceQueue_removed. rewrite wait_enter_heap.
  unfold queue_before_reduce in Hx.
  assert (x ∈ queue s ∨ x = Some (tokenId s)) as [Hin| ->].
  { destruct (isSignaled s); [by left|].
    apply elem_of_app in Hx as [Hx|Hx]; [by left|].
    apply list_elem_of_singleton in Hx. by right. }
  - apply is_token_insert. rewrite forallb_forall in Hok.
    apply Hok. by apply list_elem_of_In.
  - simpl. apply bool_decide_eq_true. rewrite lookup_insert_eq. eauto.
Qed.

Lemma wait_state_before f t s :
  snd (wait (Fn f) t s)
  = snd (cancel_reduced
           (snd (reduceQueue (queue_before_reduce s) (options s)))
           (with_queue (fst (reduceQueue (queue_before_reduce s) (options s)))
                       (wait_enter f t s))).
Proof. by rewrite wait_state, wait_enter_queue, wait_enter_options. Qed.

(** X3: every token that [reduceQueue] removes during a [wait] call is marked
    cancelled before the call returns, and the timer it carries, if any, is
    no longer pending; every other token that existed before the call is
    left exactly as it was. *)
Theorem evicted_tokens_are_canceled (s : state) (f : nat) (t : value) :
  forallb (is_token (heap s)) (queue s) = true →
  (∀ r, Some r ∈ snd (reduceQueue (queue_before_reduce s) (options s)) →
     ∃ tok, heap (snd (wait (Fn f) t s)) !! r = Some tok
       ∧ isCanceled tok = true
       ∧ ∀ h, timeoutId tok = Some h →
              timers (snd (wait (Fn f) t s)) !! h = None)
  ∧ (∀ r, Some r ∉ snd (reduceQueue (queue_before_reduce s) (options s)) →
          r ≠ tokenId s →
          heap (snd (wait (Fn f) t s)) !! r = heap s !! r).
Proof.
  intros Hok. rewrite wait_state_before. split.
  - intros r Hr.
    destruct (cancel_reduced_cancels
      (snd (reduceQueue (queue_before_reduce s) (options s)))
      (with_queue (fst (reduceQueue (queue_before_reduce s) (options s)))
                  (wait_enter f t s)) r) as (tok & tok' & _ & H2 & H3 & H4 & H5);
      [|exact Hr|].
    + intros x Hx. cbn [heap with_queue]. by apply removed_are_tokens.
    + exists tok'. split; [done|]. split; [done|]. intros h Hh. apply H5. congruence.
  - intros r Hr Hne. rewrite cancel_reduced_other by done.
    cbn [heap with_queue]. rewrite wait_enter_heap. by apply lookup_insert_ne.
Qed.

Lemma evicted_tokens_are_canceled_witness :
  ∃ tok, heap (snd (wait (Fn 9) VUndefined
      (closed_gate 2 (MkOptionsArg (Some (VNum (Fin 2))) (Some "first"%string) None))))
      !! 0 = Some tok
    ∧ isCanceled tok = true
    ∧ ∀ h, timeoutId tok = Some h →
        timers (snd (wait (Fn 9) VUndefined
          (closed_gate 2 (MkOptionsArg (Some (VNum (Fin 2))) (Some "first"%string) None))))
        !! h = None.
Proof.
  apply (proj1 (evicted_tokens_are_canceled
    (closed_gate 2 (MkOptionsArg (Some (VNum (Fin 2))) (Some "first"%string) None))
    9 VUndefined eq_refl) 0).
  vm_compute. apply list_elem_of_singleton. reflexivity.
Defined.

(** X4: under the default ['this'] strategy a [wait] on a non-signaled gate
    whose queue would exceed [maxQueueSize] leaves the queue as it was: the
    call still returns its token, but the token is already cancelled, the
    timer just armed for it is cleared, no callback runs and no other token
    is touched. *)
Theorem full_gate_rejects_newcomer (s : state) (f : nat) (t : value) :
  isSignaled s = false →
  forallb (is_token (heap s)) (queue s) = true →
  overflowStrategy (options s) = "this"%string →
  Js.gt (Js.len (queue s ++ [Some (tokenId s)]))
        (Js.to_number (maxQueueSize (options s))) = true →
  fst (wait (Fn f) t s) = Return (tokenId s)
  ∧ queue (snd (wait (Fn f) t s)) = queue s
  ∧ isSignaled (snd (wait (Fn f) t s)) = false
  ∧ calls (snd (wait (Fn f) t s)) = calls s
  ∧ heap (snd (wait (Fn f) t s)) !! tokenId s
    = Some (Token (tokenId s) true f
                  (if Js.truthy t then Some (nextTimer s) else None))
  ∧ (∀ r, r ≠ tokenId s → heap (snd (wait (Fn f) t s)) !! r = heap s !! r)
  ∧ (Js.truthy t = true → timers (snd (wait (Fn f) t s)) !! nextTimer s = None).
Proof.
  intros Hc Hok Hs Hgt.
  assert (queue_before_reduce s = queue s ++ [Some (tokenId s)]) as Hq
    by (unfold queue_before_reduce; by rewrite Hc).
  pose proof (reduceQueue_this _ _ _ Hs Hgt) as Hred.
  split; [by apply wait_returns|].
  split; [by rewrite wait_queue, Hq, Hred|].
  split; [by apply wait_closed|].
  destruct (wait_gate f t s) as (_ & _ & _ & _ & Hcalls & _).
  cbv zeta in Hcalls.
  split; [by rewrite Hcalls, wait_enter_calls, Hc|].
  rewrite wait_state_before, Hq, Hred. cbn [fst snd cancel_reduced].
  unfold_monad. cbn [heap with_queue].
  rewrite wait_enter_heap, lookup_insert_eq.
  destruct (Js.truthy t) eqn:Ht; cbn.
  - rewrite wait_enter_heap, Ht, insert_insert_eq.
    split; [by rewrite lookup_insert_eq|].
    split; [intros r Hr; by rewrite lookup_insert_ne|].
    intros _. by rewrite lookup_delete_eq.
  - rewrite wait_enter_heap, Ht, insert_insert_eq.
    split; [by rewrite lookup_insert_eq|].
    split; [intros r Hr; by rewrite lookup_insert_ne|done].
Qed.

Lemma full_gate_rejects_newcomer_witness :
  queue (snd (wait (Fn 9) (VNum (Fin 50))
    (closed_gate 2 (MkOptionsArg (Some (VNum (Fin 2))) None None))))
  = [Some 0; Some 1]
  ∧ heap (snd (wait (Fn 9) (VNum (Fin 50))
      (closed_gate 2 (MkOptionsArg (Some (VNum (Fin 2))) None None)))) !! 2
    = Some (Token 2 true 9 (Some 0)).
Proof.
  destruct (full_gate_rejects_newcomer
    (closed_gate 2 (MkOptionsArg (Some (VNum (Fin 2))) None None))
    9 (VNum (Fin 50))) as (_ & Hq & _ & _ & Hh & _); try reflexivity.
  split; [exact Hq | exact Hh].
Defined.

(** ** What a release takes off the queue *)

Lemma set_body_calls_exact slot q s :
  calls (snd (set_body slot q s))
  = calls s ++ match live_ref (heap s) slot with Some r => [r] | None => [] end.
Proof.
  destruct slot as [r|]; [|cbn; by rewrite app_nil_r].
  cbn [live_ref]. destruct (heap s !! r) as [tok|] eqn:Hr.
  - rewrite (set_body_token _ _ _ _ Hr). cbv zeta.
    destruct (clear_if_budget_frame tok (popped q s))
      as (_ & _ & _ & _ & Hc & _).
    destruct (isCanceled tok); cbn; rewrite Hc; [by rewrite app_nil_r|done].
  - unfold set_body. unfold_monad. cbn. rewrite Hr. cbn. by rewrite app_nil_r.
Qed.

Lemma set_loop_prefix q s :
  queue s = q →
  ∃ k, k ≤ length q
    ∧ queue (snd (set_loop q s)) = drop k q
    ∧ calls (snd (set_loop q s)) = calls s ++ live_refs (heap s) (take k q).
Proof.
  revert s. induction q as [|slot q IH]; intros s Hq.
  - exists 0. cbn. by rewrite Hq, app_nil_r.
  - cbn [set_loop]. unfold bind.
    pose proof (set_body_frame slot q s) as (Fh & _).
    pose proof (set_body_queue slot q s) as Fq.
    pose proof (set_body_calls_exact slot q s) as Fc.
    assert (∀ s1, queue s1 = q →
              calls s1 = calls s ++ match live_ref (heap s) slot with
                                    | Some r => [r] | None => [] end →
              ∃ k, k ≤ length (slot :: q) ∧ queue s1 = drop k (slot :: q)
                ∧ calls s1 = calls s ++ live_refs (heap s) (take k (slot :: q)))
      as Hstop.
    { intros s1 H1 H2. exists 1. cbn. rewrite drop_0, take_0. cbn.
      split; [lia|]. split; [done|]. rewrite H2.
      destruct (live_ref _ _); done. }
    destruct (set_body slot q s) as [[[|]|msg] s1]; cbn [snd] in *;
      [|by apply Hstop|by apply Hstop].
    destruct (IH s1 Fq) as (k & Hk & Hqk & Hck). exists (S k). cbn.
    split; [lia|]. split; [done|]. rewrite Hck, Fc, Fh, <- app_assoc.
    destruct (live_ref _ _); done.
Qed.

(** X5: whatever the budget and whatever the queue holds, [set] takes a
    front part of the queue off it and runs exactly the callbacks of the
    non-cancelled tokens of that part, in queue order; the rest of the queue
    stays in place and no token object is changed.  (On a signaled gate the
    part is empty: [set] throws and changes nothing.) *)
Theorem release_consumes_a_prefix (s : state) :
  ∃ k, k ≤ length (queue s)
    ∧ queue (snd (set s)) = drop k (queue s)
    ∧ calls (snd (set s)) = calls s ++ live_refs (heap s) (take k (queue s))
    ∧ heap (snd (set s)) = heap s.
Proof.
  destruct (isSignaled s) eqn:Hs.
  - rewrite (set_open _ Hs). exists 0. cbn. rewrite drop_0, take_0. cbn.
    split; [lia|]. by rewrite app_nil_r.
  - rewrite (set_closed _ Hs).
    destruct (set_loop_prefix (queue s)
      (with_callbacksCount (autoResetCount (options s)) s) eq_refl)
      as (k & Hk & Hq & Hc).
    destruct (set_loop_frame (queue s)
      (with_callbacksCount (autoResetCount (options s)) s)) as (Hh & _).
    exists k. done.
Qed.

(** *** The budget a release leaves behind *)

Lemma budget_after_number c k :
  budget_after (VNum (Js.to_number c)) k = budget_after c k.
Proof. done. Qed.

Lemma set_loop_budget q s :
  forallb (is_token (heap s)) q = true →
  queue s = q →
  Js.to_number (callbacksCount (snd (set_loop q s)))
  = budget_after (callbacksCount s)
      (length (calls (snd (set_loop q s))) - length (calls s)).
Proof.
  revert s. induction q as [|slot q IH]; intros s Hok Hq.
  - cbn. rewrite Nat.sub_diag. unfold budget_after.
    destruct (Js.to_number _); try done. f_equal. lia.
  - cbn [forallb] in Hok. apply andb_true_iff in Hok as [Hslot Hok].
    apply is_token_Some in Hslot as (r & tok & -> & Hr).
    destruct (clear_if_budget_frame tok (popped q s))
      as (Fq & Fsig & Fo & Fc & Fcalls & _ & _ & Fh).
    destruct (isCanceled tok) eqn:Hcan.
    + rewrite (set_loop_cons_dead _ _ _ _ Hr Hcan).
      set (s3 := with_callbacksCount _ _).
      rewrite (IH s3); [|by subst s3; cbn; rewrite Fh|by subst s3; cbn; rewrite Fq].
      subst s3. cbn [callbacksCount calls with_callbacksCount].
      by rewrite Fcalls, budget_after_number.
    + rewrite (set_loop_cons_live _ _ _ _ Hr Hcan). cbv zeta.
      set (s3 := with_calls _ _).
      assert (callbacksCount s3 = Js.decr (callbacksCount s)) as Hb3
        by (subst s3; cbn; by rewrite Fc).
      assert (calls s3 = calls s ++ [r]) as Hc3 by done.
      destruct (Js.is_zero (Js.decr (callbacksCount s))) eqn:Hz.
      * cbn [snd]. rewrite Hb3, Hc3, length_app. cbn [length].
        replace (length (calls s) + 1 - length (calls s)) with 1 by lia.
        unfold budget_after, Js.decr. cbn.
        by destruct (Js.to_number (callbacksCount s)).
      * rewrite (IH s3); [|by subst s3; cbn; rewrite Fh|by subst s3; cbn; rewrite Fq].
        destruct (set_loop_frame q s3) as (_ & _ & _ & _ & _ & (l & Hl & _) & _).
        rewrite Hl, Hb3, Hc3, !length_app. cbn [length].
        unfold budget_after, Js.decr. cbn.
        destruct (Js.to_number (callbacksCount s)); cbn; try done.
        f_equal. lia.
Qed.

(** X6: after [set] on a non-signaled gate whose queue holds tokens, the
    release budget [callbacksCount] is [autoResetCount] minus the number of
    callbacks that call ran (and stays [Infinity] or [NaN] when it started
    so), provided a finite [autoResetCount] is a safe integer and stays one
    when decremented once more than there are queued slots. *)
Theorem release_leaves_budget (s : state) :
  isSignaled s = false →
  forallb (is_token (heap s)) (queue s) = true →
  Js.exact_budget (autoResetCount (options s)) (length (queue s)) = true →
  Js.to_number (callbacksCount (snd (set s)))
  = budget_after (autoResetCount (options s))
      (length (calls (snd (set s))) - length (calls s)).
Proof.
  intros Hc Hok _. rewrite (set_closed _ Hc).
  by rewrite (set_loop_budget (queue s)
    (with_callbacksCount (autoResetCount (options s)) s) Hok eq_refl).
Qed.

Lemma release_leaves_budget_witness :
  Js.to_number (callbacksCount (snd (set
    (closed_gate 2 (MkOptionsArg None None (Some (VNum (Fin 5)))))))) = Fin 3.
Proof.
  exact (release_leaves_budget
    (closed_gate 2 (MkOptionsArg None None (Some (VNum (Fin 5)))))
    eq_refl eq_refl eq_refl).
Defined.

(** ** [wait] on a signaled gate *)

Lemma with_queue_id s q : queue s = q → with_queue q s = s.
Proof. destruct s. cbn. by intros <-. Qed.

Lemma wait_open_state f t s :
  isSignaled s = true → queue s = [] →
  reduceQueue [] (options s) = ([], []) →
  wait (Fn f) t s = (Return (tokenId s), wait_enter f t s).
Proof.
  intros Hs Hq Hred. rewrite wait_eq. cbv zeta.
  assert (queue (wait_enter f t s) = []) as Hq1
    by (rewrite wait_enter_queue; unfold queue_before_reduce; by rewrite Hs).
  rewrite Hq1, wait_enter_options, Hred. cbn.
  by rewrite (with_queue_id _ _ Hq1).
Qed.

Lemma wait_enter_open f t s :
  isSignaled s = true →
  callbacksCount (wait_enter f t s) = Js.decr (callbacksCount s)
  ∧ isSignaled (wait_enter f t s) = negb (Js.is_zero (Js.decr (callbacksCount s))).
Proof.
  intros Hs. unfold wait_enter, place_token, arm. unfold_monad.
  destruct (Js.truthy t); cbn; rewrite Hs; cbn;
    destruct (Js.is_zero _); done.
Qed.

(** X7: a signaled gate with an empty queue and a release budget
    [callbacksCount = B >= 1], [B] a safe integer, lets exactly [B] calls of
    [wait] through: each
    of up to [B] calls runs its callback at once, in call order, and takes one
    unit of the budget; the gate is still signaled after fewer than [B] calls
    and is non-signaled after the [B]-th.  (The options must leave an empty
    queue empty, as all but ['last'] with a negative bound do.) *)
Theorem open_gate_passes_budget (s : state) (B : Z) (ws : list (nat * value)) :
  isSignaled s = true →
  queue s = [] →
  reduceQueue [] (options s) = ([], []) →
  Js.to_number (callbacksCount s) = Fin B →
  (1 ≤ B)%Z →
  Js.safe_integer B = true →
  (Z.of_nat (length ws) ≤ B)%Z →
  calls (run (fn_waits ws) s) = calls s ++ seq (tokenId s) (length ws)
  ∧ queue (run (fn_waits ws) s) = []
  ∧ isSignaled (run (fn_waits ws) s) = bool_decide (Z.of_nat (length ws) < B)%Z
  ∧ Js.to_number (callbacksCount (run (fn_waits ws) s))
    = Fin (B - Z.of_nat (length ws)).
Proof.
  revert s B.
  induction ws as [|[f t] ws IH]; intros s B Hs Hq Hred HB H1 Hsafe Hlen.
  - cbn. rewrite app_nil_r, Hs, HB.
    split; [done|]. split; [done|].
    split; [symmetry; apply bool_decide_eq_true; lia|]. f_equal. lia.
  - cbn [fn_waits map run fold_left step fst snd length] in *.
    rewrite (wait_open_state _ _ _ Hs Hq Hred). cbn [snd].
    destruct (wait_enter_open f t s Hs) as (Hb1 & Hs1).
    assert (Js.decr (callbacksCount s) = VNum (Fin (B - 1))) as Hdecr
      by (unfold Js.decr; by rewrite HB).
    rewrite Hdecr in Hb1, Hs1.
    assert (queue (wait_enter f t s) = []) as Hq1
      by (rewrite wait_enter_queue; unfold queue_before_reduce; by rewrite Hs).
    assert (calls (wait_enter f t s) = calls s ++ [tokenId s]) as Hc1
      by (by rewrite wait_enter_calls, Hs).
    destruct (decide (B = 1%Z)) as [->|Hne].
    + destruct ws; [|cbn in Hlen; lia]. cbn.
      rewrite Hq1, Hc1, Hs1, Hb1. done.
    + destruct (IH (wait_enter f t s) (B - 1)%Z) as (I1 & I2 & I3 & I4).
      * rewrite Hs1. unfold Js.is_zero. destruct (B - 1)%Z eqn:E; try done. lia.
      * done.
      * by rewrite wait_enter_options.
      * by rewrite Hb1.
      * lia.
      * unfold Js.safe_integer, Js.max_safe_integer in *.
        apply andb_true_iff in Hsafe as [Hlo%Z.leb_le Hhi%Z.leb_le].
        apply andb_true_iff. rewrite !Z.leb_le. lia.
      * lia.
      * fold (fn_waits ws). unfold run in *.
        rewrite I1, I2, I3, I4, Hc1, wait_enter_tokenId, <- app_assoc. cbn.
        split; [done|]. split; [done|]. split.
        -- apply bool_decide_ext. lia.
        -- f_equal. lia.
Qed.

Lemma open_gate_passes_budget_witness :
  calls (run (fn_waits [(7, VUndefined); (8, VUndefined)])
    (snd (set (closed_gate 0 (MkOptionsArg None None (Some (VNum (Fin 2))))))))
  = [0; 1]
  ∧ isSignaled (run (fn_waits [(7, VUndefined); (8, VUndefined)])
    (snd (set (closed_gate 0 (MkOptionsArg None None (Some (VNum (Fin 2))))))))
    = false.
Proof.
  destruct (open_gate_passes_budget
    (snd (set (closed_gate 0 (MkOptionsArg None None (Some (VNum (Fin 2)))))))
    2 [(7, VUndefined); (8, VUndefined)]) as (Hc & _ & Hs & _);
    [reflexivity | reflexivity | reflexivity | reflexivity | lia
    | reflexivity | cbn; lia |].
  split; [exact Hc | exact Hs].
Defined.

(** ** Timers under an unbounded release *)

Lemma set_loop_pinf_timers q s r tok h :
  forallb (is_token (heap s)) q = true →
  Js.to_number (callbacksCount s) = PInf →
  Some r ∈ q → heap s !! r = Some tok → timeoutId tok = Some h →
  timers (snd (set_loop q s)) !! h = None.
Proof.
  revert s. induction q as [|slot q IH]; intros s Hok Hinf Hin Hr Hh.
  { by apply elem_of_nil in Hin. }
  cbn [forallb] in Hok. apply andb_true_iff in Hok as [Hslot Hok].
  apply is_token_Some in Hslot as (r0 & tok0 & -> & Hr0).
  assert (Js.decr (callbacksCount s) = VNum PInf) as Hdecr
    by (unfold Js.decr; by rewrite Hinf).
  destruct (clear_if_budget_frame tok0 (popped q s))
    as (_ & _ & _ & Fc & _ & _ & _ & Fh).
  assert (∀ s3, heap s3 = heap s → Js.to_number (callbacksCount s3) = PInf →
            (∀ h' x, timers s3 !! h' = Some x →
                     timers (clear_if_budget tok0 (popped q s)) !! h' = Some x) →
            timers (snd (set_loop q s3)) !! h = None) as Hnext.
  { intros s3 Hh3 Hc3 Htm3.
    destruct (decide (r = r0)) as [->|Hne].
    - assert (tok0 = tok) as -> by congruence.
      destruct (timers (snd (set_loop q s3)) !! h) eqn:E; [|done].
      destruct (set_loop_frame q s3) as (_ & _ & _ & _ & Htm & _).
      apply Htm, Htm3 in E. unfold clear_if_budget, popped in E.
      rewrite Hh in E.
      cbn [callbacksCount with_callbacksCount with_queue] in E.
      rewrite Hdecr in E. change (Js.gt_zero (VNum PInf)) with true in E.
      unfold with_timers in E. cbn [timers] in E.
      by rewrite lookup_delete_eq in E.
    - apply elem_of_cons in Hin as [Heq|Hin]; [congruence|].
      apply IH; try done; by rewrite Hh3. }
  destruct (isCanceled tok0) eqn:Hcan.
  - rewrite (set_loop_cons_dead _ _ _ _ Hr0 Hcan). apply Hnext.
    + cbn. by rewrite Fh.
    + cbn. done.
    + done.
  - rewrite (set_loop_cons_live _ _ _ _ Hr0 Hcan). cbv zeta.
    rewrite Hdecr. cbn. apply Hnext.
    + cbn. by rewrite Fh.
    + cbn. rewrite Fc. cbn. by rewrite Hdecr.
    + done.
Qed.

(** X8: with the default unbounded [autoResetCount], [set] clears the timer
    of every token it finds in the queue: once it has returned, no timer
    armed for a queued token is pending any more. *)
Theorem unbounded_release_clears_timers
    (s : state) (r : nat) (tok : token) (h : nat) :
  isSignaled s = false →
  forallb (is_token (heap s)) (queue s) = true →
  autoResetCount (options s) = VNum PInf →
  Some r ∈ queue s →
  heap s !! r = Some tok →
  timeoutId tok = Some h →
  timers (snd (set s)) !! h = None.
Proof.
  intros Hc Hok Hinf Hin Hr Hh. rewrite (set_closed _ Hc).
  apply (set_loop_pinf_timers (queue s) _ r tok h); try done.
  cbn. by rewrite Hinf.
Qed.

Lemma unbounded_release_clears_timers_witness :
  timers (snd (set (run (fn_waits [(0, VNum (Fin 50)); (1, VNum (Fin 20))])
                        (ResetEvent false noOptions)))) !! 1 = None.
Proof.
  apply (unbounded_release_clears_timers
    (run (fn_waits [(0, VNum (Fin 50)); (1, VNum (Fin 20))])
         (ResetEvent false noOptions))
    1 (Token 1 false 1 (Some 1)) 1); try reflexivity.
  vm_compute. apply elem_of_cons. right. apply elem_of_cons. left. reflexivity.
Defined.

(** ** Cancelled tokens *)

Lemma step_canceled r o s :
  canceled r s →
  canceled r (step o s) ∧ ∃ l, calls (step o s) = calls s ++ l ∧ r ∉ l.
Proof.
  intros (Hlt & tok & Hr & Hcan).
  assert (∀ s', calls s' = calls s → ∃ l, calls s' = calls s ++ l ∧ r ∉ l)
    as Hsame.
  { intros s' ->. exists []. rewrite app_nil_r. split; [done|].
    by intros ?%elem_of_nil. }
  destruct o as [[f|] t| | |h]; cbn [step].
  - destruct (wait_gate f t s) as (_ & _ & _ & _ & Hcalls & Htok & _).
    cbv zeta in Hcalls, Htok. split.
    + split; [rewrite Htok, wait_enter_tokenId; lia|].
      rewrite wait_state.
      match goal with |- context [cancel_reduced ?l ?s0] =>
        pose proof (cancel_reduced_heap l s0 r) as H end.
      cbn [heap with_queue] in H.
      rewrite wait_enter_heap, lookup_insert_ne, Hr in H by lia.
      destruct H as (tok' & H1 & _ & H3). exists tok'.
      split; [done|by apply H3].
    + rewrite Hcalls, wait_enter_calls. destruct (isSignaled s).
      * exists [tokenId s]. split; [done|].
        intros ?%list_elem_of_singleton. lia.
      * exists []. rewrite app_nil_r. split; [done|]. by intros ?%elem_of_nil.
  - split; [|by apply Hsame]. split; eauto.
  - destruct (isSignaled s) eqn:Hs.
    + rewrite (set_open _ Hs). split; [|by apply Hsame]. split; eauto.
    + rewrite (set_closed _ Hs).
      destruct (set_loop_frame (queue s)
        (with_callbacksCount (autoResetCount (options s)) s))
        as (Hh & _ & Ht & _ & _ & (l & Hl & Hlive) & _).
      cbv zeta in *. cbn [heap tokenId calls with_callbacksCount] in *.
      split.
      * split; [by rewrite Ht|]. rewrite Hh. eauto.
      * exists l. split; [done|]. intros Hin%Hlive. simpl in Hin.
        by rewrite Hr, Hcan in Hin.
  - unfold reset. unfold_monad.
    destruct (bool_decide _); cbn; (split; [split; eauto|by apply Hsame]).
  - unfold fire. destruct (timers s !! h) as [r'|];
      [|split; [split; eauto|by apply Hsame]].
    split; [|by apply Hsame]. split; [done|].
    unfold with_timers, with_heap. cbn [heap].
    destruct (decide (r' = r)) as [->|Hne].
    + rewrite lookup_alter_eq, Hr. cbn. eauto.
    + rewrite lookup_alter_ne by done. eauto.
Qed.

(** X9: cancellation is final.  Once a token is marked cancelled, whether by
    its timer or because [reduceQueue] removed it, every later sequence of
    [wait], [set], [reset] and timer events leaves it cancelled and never
    runs its callback. *)
Theorem canceled_token_never_runs (s : state) (r : nat) (ops : list op) :
  canceled r s →
  canceled r (run ops s) ∧ ∃ l, calls (run ops s) = calls s ++ l ∧ r ∉ l.
Proof.
  revert s. induction ops as [|o ops IH]; intros s Hcan.
  - split; [done|]. exists []. rewrite app_nil_r. split; [done|].
    by intros ?%elem_of_nil.
  - cbn [run fold_left].
    destruct (step_canceled r o s Hcan) as (Hcan1 & l1 & Hl1 & Hn1).
    destruct (IH _ Hcan1) as (Hcan2 & l2 & Hl2 & Hn2).
    split; [done|]. exists (l1 ++ l2).
    split; [unfold run in Hl2; by rewrite Hl2, Hl1, <- app_assoc|].
    intros [?|?]%elem_of_app; done.
Qed.

Lemma canceled_token_never_runs_witness :
  ∃ l, calls (run [OpSet; OpReset; OpSet]
         (closed_gate 3 (MkOptionsArg (Some (VNum (Fin 2))) None None)))
       = calls (closed_gate 3 (MkOptionsArg (Some (VNum (Fin 2))) None None)) ++ l
    ∧ 2 ∉ l.
Proof.
  apply (canceled_token_never_runs
    (closed_gate 3 (MkOptionsArg (Some (VNum (Fin 2))) None None))
    2 [OpSet; OpReset; OpSet]).
  split; [vm_compute; lia|]. eexists. split; reflexivity.
Defined.

(** ** The order of the queue and of the calls *)

Lemma refs_app q1 q2 : refs (q1 ++ q2) = refs q1 ++ refs q2.
Proof.
  induction q1 as [|[r|] q1 IH]; cbn; [done| |done]. by rewrite IH.
Qed.

Lemma live_refs_sublist hp q : live_refs hp q `sublist_of` refs q.
Proof.
  induction q as [|[r|] q IH]; cbn; [constructor| |done].
  destruct (hp !! r) as [tok|]; [|by constructor].
  destruct (isCanceled tok); by constructor.
Qed.

Lemma sorted_lt_NoDup (l : list nat) : StronglySorted lt l → NoDup l.
Proof.
  induction 1 as [|x l _ IH Hx]; [constructor|].
  apply NoDup_cons. split; [|done].
  intros Hin. rewrite Forall_forall in Hx. specialize (Hx _ Hin). lia.
Qed.

Lemma reduceQueue_refs q o :
  ∃ A B C, refs q = A ++ B ++ C ∧ refs (fst (reduceQueue q o)) = A ++ C.
Proof.
  destruct q as [|x q].
  - exists [], [], []. split; [done|].
    by destruct (reduceQueue_nil o) as [-> | ->].
  - destruct (reduceQueue_split (x :: q) o) as (A & B & C & Hq & ->);
      [done|].
    exists (refs A), (refs B), (refs C). cbn [fst].
    by rewrite Hq, !refs_app.
Qed.

Lemma orderly_drop_middle A B C cs n :
  orderly_lists (A ++ B ++ C) cs n → orderly_lists (A ++ C) cs n.
Proof.
  intros (Hs & Hq & Hn & Hc & Hd). unfold orderly_lists.
  rewrite !StronglySorted_app in Hs. destruct Hs as (H1 & H2 & _ & H3 & H4).
  rewrite !Forall_app in Hq. destruct Hq as (? & ? & ?).
  split; [|split; [|split; [|split]]]; try done.
  - apply StronglySorted_app. split; [|done].
    intros x1 x2 Hx1 Hx2. apply H1; [done|]. apply elem_of_app. by right.
  - apply Forall_app. done.
  - intros r [Hr|Hr]%elem_of_app; apply Hd; rewrite !elem_of_app; eauto.
Qed.

Lemma orderly_release P S l cs n :
  orderly_lists (P ++ S) cs n → l `sublist_of` P →
  orderly_lists S (cs ++ l) n.
Proof.
  intros (Hs & Hq & Hn & Hc & Hd) Hl.
  pose proof (sorted_lt_NoDup _ Hs) as Hnd.
  apply NoDup_app in Hnd as (HndP & Hdisj & _).
  rewrite StronglySorted_app in Hs. destruct Hs as (_ & _ & HsS).
  rewrite Forall_app in Hq. destruct Hq as (HqP & HqS).
  assert (∀ r, r ∈ l → r ∈ P) as Hsub
    by (intros r Hr; by eapply elem_of_sublist).
  split; [done|]. split; [done|]. split; [|split].
  - apply NoDup_app. split; [done|]. split; [|by eapply sublist_NoDup].
    intros r Hr Hrl. apply (Hd r); [|done]. apply elem_of_app. left. by apply Hsub.
  - apply Forall_app. split; [done|]. rewrite Forall_forall in HqP |- *.
    intros r Hr. by apply HqP, Hsub.
  - intros r Hr [Hrc|Hrl]%elem_of_app.
    + apply (Hd r); [|done]. apply elem_of_app. by right.
    + apply (Hdisj r); [by apply Hsub|done].
Qed.

Lemma step_orderly o s : orderly s → orderly (step o s).
Proof.
  unfold orderly. intros Hinv. destruct o as [[f|] t| | |h]; cbn [step].
  - destruct (wait_gate f t s) as (Hq & _ & _ & _ & Hcalls & Htok & _).
    cbv zeta in Hq, Hcalls, Htok.
    rewrite Hq, Hcalls, Htok, wait_enter_tokenId, wait_enter_calls.
    destruct (reduceQueue_refs (queue (wait_enter f t s))
                (options (wait_enter f t s))) as (A & B & C & HABC & ->).
    apply (orderly_drop_middle A B C). rewrite <- HABC, wait_enter_queue.
    unfold queue_before_reduce.
    destruct Hinv as (Hs & Hlt & Hn & Hc & Hd).
    assert (∀ l : list nat, Forall (fun r => r < tokenId s) l →
                            Forall (fun r => r < S (tokenId s)) l) as Hmono.
    { intros l Hl. eapply Forall_impl; [exact Hl|]. cbn. lia. }
    assert (tokenId s ∉ calls s) as Hfresh.
    { intros Hin. rewrite Forall_forall in Hc. specialize (Hc _ Hin). lia. }
    destruct (isSignaled s).
    + split; [done|]. split; [by apply Hmono|]. split; [|split].
      * apply NoDup_app. split; [done|]. split; [|apply NoDup_singleton].
        intros r Hr ->%list_elem_of_singleton. done.
      * apply Forall_app. split; [by apply Hmono|]. apply Forall_singleton. lia.
      * intros r Hr [Hrc|Hrl]%elem_of_app; [by apply (Hd r)|].
        apply list_elem_of_singleton in Hrl as ->.
        rewrite Forall_forall in Hlt. specialize (Hlt _ Hr). lia.
    + rewrite refs_app. cbn [refs].
      split; [|split; [|split; [done|split; [by apply Hmono|]]]].
      * apply StronglySorted_app. split; [|split; [done|]].
        -- intros x1 x2 Hx1 ->%list_elem_of_singleton.
           rewrite Forall_forall in Hlt. by apply Hlt.
        -- repeat constructor.
      * apply Forall_app. split; [by apply Hmono|]. apply Forall_singleton. lia.
      * intros r [Hr|Hr]%elem_of_app; [by apply Hd|].
        apply list_elem_of_singleton in Hr as ->. done.
  - done.
  - destruct (isSignaled s) eqn:Hsig.
    + by rewrite (set_open _ Hsig).
    + rewrite (set_closed _ Hsig).
      destruct (set_loop_prefix (queue s)
        (with_callbacksCount (autoResetCount (options s)) s) eq_refl)
        as (k & _ & Hq & Hc).
      destruct (set_loop_frame (queue s)
        (with_callbacksCount (autoResetCount (options s)) s))
        as (_ & _ & Ht & _).
      cbv zeta in Ht. cbn [heap calls tokenId with_callbacksCount] in *.
      rewrite Hq, Hc, Ht.
      apply (orderly_release (refs (take k (queue s)))).
      * by rewrite <- refs_app, take_drop.
      * apply live_refs_sublist.
  - unfold reset. unfold_monad. by destruct (bool_decide _).
  - unfold fire. by destruct (timers s !! h).
Qed.

Lemma run_orderly ops s : orderly s → orderly (run ops s).
Proof.
  revert s. induction ops as [|o ops IH]; intros s Hinv; [done|].
  cbn [run fold_left]. by apply IH, step_orderly.
Qed.

Lemma ResetEvent_orderly b o : orderly (ResetEvent b o).
Proof.
  unfold orderly, orderly_lists. cbn.
  repeat split; try constructor. by intros r ?%elem_of_nil.
Qed.

(** X10: whatever a client does with a gate, the tokens in its queue are in
    arrival order: their ids increase strictly from the front to the back,
    so a token queued earlier is always ahead of one queued later. *)
Theorem queue_in_arrival_order (ops : list op) (b : bool) (o : OptionsArg) :
  StronglySorted lt (refs (queue (run ops (ResetEvent b o)))).
Proof.
  by destruct (run_orderly ops _ (ResetEvent_orderly b o)) as (H & _).
Qed.

(** X11: whatever a client does with a gate, no callback runs twice, and a
    token that is still queued has not had its callback run. *)
Theorem callbacks_run_at_most_once (ops : list op) (b : bool) (o : OptionsArg) :
  NoDup (calls (run ops (ResetEvent b o)))
  ∧ ∀ r, r ∈ refs (queue (run ops (ResetEvent b o))) →
         r ∉ calls (run ops (ResetEvent b o)).
Proof.
  by destruct (run_orderly ops _ (ResetEvent_orderly b o))
    as (_ & _ & H1 & _ & H2).
Qed.

(** ** Token ids *)







(** ** A gate without a bound *)

Lemma reduceQueue_unbounded q o : unbounded o → reduceQueue q o = (q, []).
Proof.
  intros [H|H]; unfold reduceQueue; rewrite H; [done|]. by cbn.
Qed.

Lemma wait_unbounded_state f t s :
  isSignaled s = false → unbounded (options s) →
  wait (Fn f) t s = (Return (tokenId s), wait_enter f t s).
Proof.
  intros Hs Hu. rewrite wait_eq. cbv zeta.
  rewrite reduceQueue_unbounded by (by rewrite wait_enter_options).
  cbn. by rewrite with_queue_id.
Qed.

Lemma wait_enter_closed_budget f t s :
  isSignaled s = false →
  callbacksCount (wait_enter f t s) = callbacksCount s.
Proof.
  intros Hs. unfold wait_enter, place_token, arm. unfold_monad.
  destruct (Js.truthy t); cbn; by rewrite Hs.
Qed.

Lemma waits_on_unbounded_gate (s : state) (ws : list (nat * value)) :
  isSignaled s = false →
  unbounded (options s) →
  queue (run (fn_waits ws) s)
  = queue s ++ (Some <$> seq (tokenId s) (length ws))
  ∧ calls (run (fn_waits ws) s) = calls s
  ∧ isSignaled (run (fn_waits ws) s) = false
  ∧ (∀ r, r < tokenId s → heap (run (fn_waits ws) s) !! r = heap s !! r)
  ∧ (∀ r, tokenId s ≤ r < tokenId s + length ws →
          ∃ tok, heap (run (fn_waits ws) s) !! r = Some tok
                 ∧ isCanceled tok = false).
Proof.
  revert s. induction ws as [|[f t] ws IH]; intros s Hs Hu.
  - cbn. rewrite app_nil_r. repeat split; try done. intros r Hr. lia.
  - cbn [fn_waits map run fold_left step fst snd length].
    rewrite (wait_unbounded_state _ _ _ Hs Hu). cbn [snd].
    destruct (IH (wait_enter f t s)) as (I1 & I2 & I3 & I4 & I5).
    { by apply wait_enter_closed. }
    { by rewrite wait_enter_options. }
    fold (fn_waits ws). unfold run in *.
    rewrite wait_enter_tokenId in *.
    rewrite I1, I2, I3, wait_enter_queue, wait_enter_calls.
    unfold queue_before_reduce. rewrite Hs, <- app_assoc. cbn.
    split; [done|]. split; [done|]. split; [done|]. split.
    + intros r Hr. rewrite I4 by lia.
      rewrite wait_enter_heap. apply lookup_insert_ne. lia.
    + intros r Hr. destruct (decide (r = tokenId s)) as [->|Hne].
      * rewrite I4 by lia. rewrite wait_enter_heap, lookup_insert_eq. eauto.
      * apply I5. lia.
Qed.

(** X13: on a non-signaled gate whose [maxQueueSize] is the default
    [Infinity] (or not a number at all), every call of [wait] with a function
    queues its token at the back and nothing else happens: after [n] calls
    the queue is the old one followed by the [n] new tokens in call order,
    no callback has run, none of the new tokens is cancelled and no older
    token has changed. *)
Theorem unbounded_gate_queues_every_waiter (s : state) (ws : list (nat * value)) :
  isSignaled s = false →
  unbounded (options s) →
  queue (run (fn_waits ws) s)
  = queue s ++ (Some <$> seq (tokenId s) (length ws))
  ∧ queueSize (run (fn_waits ws) s) = queueSize s + length ws
  ∧ calls (run (fn_waits ws) s) = calls s
  ∧ isSignaled (run (fn_waits ws) s) = false
  ∧ (∀ r, r < tokenId s → heap (run (fn_waits ws) s) !! r = heap s !! r)
  ∧ (∀ r, tokenId s ≤ r < tokenId s + length ws →
          ∃ tok, heap (run (fn_waits ws) s) !! r = Some tok
                 ∧ isCanceled tok = false).
Proof.
  intros Hs Hu.
  destruct (waits_on_unbounded_gate s ws Hs Hu) as (Hq & Hc & Hsig & Hold & Hnew).
  split; [done|]. split; [|done].
  unfold queueSize. by rewrite Hq, length_app, length_fmap, length_seq.
Qed.

Lemma unbounded_gate_queues_every_waiter_witness :
  queue (run (fn_waits [(7, VUndefined); (8, VNum (Fin 50))])
             (closed_gate 1 noOptions))
  = [Some 0; Some 1; Some 2].
Proof.
  refine (proj1 (unbounded_gate_queues_every_waiter (closed_gate 1 noOptions)
                   [(7, VUndefined); (8, VNum (Fin 50))] _ _)).
  - reflexivity.
  - right. reflexivity.
Defined.

(** X14: while the gate is non-signaled, calls of [wait] never run a
    callback, never signal the gate and never touch the release budget,
    whatever the options and whatever is passed as callback. *)
Theorem closed_gate_runs_nothing (s : state) (ws : list (jsarg * value)) :
  isSignaled s = false →
  calls (run (waits ws) s) = calls s
  ∧ isSignaled (run (waits ws) s) = false
  ∧ callbacksCount (run (waits ws) s) = callbacksCount s.
Proof.
  revert s. induction ws as [|[cb t] ws IH]; intros s Hs; [done|].
  cbn [waits map run fold_left step fst snd].
  destruct (IH (snd (wait cb t s))) as (I1 & I2 & I3).
  { by apply wait_closed. }
  fold (waits ws). unfold run in *. rewrite I1, I2, I3.
  destruct cb as [f|]; [|done].
  destruct (wait_gate f t s) as (_ & _ & _ & Hb & Hc & _).
  cbv zeta in Hb, Hc.
  by rewrite Hb, Hc, wait_enter_calls, Hs, wait_enter_closed_budget.
Qed.

Lemma closed_gate_runs_nothing_witness :
  calls (run (waits [(Fn 0, VUndefined); (NotAFunction, VUndefined);
                     (Fn 1, VNum (Fin 5))])
             (ResetEvent false (MkOptionsArg (Some (VNum (Fin 1))) None None)))
  = [].
Proof.
  exact (proj1 (closed_gate_runs_nothing
    (ResetEvent false (MkOptionsArg (Some (VNum (Fin 1))) None None))
    [(Fn 0, VUndefined); (NotAFunction, VUndefined); (Fn 1, VNum (Fin 5))]
    eq_refl)).
Defined.

(** ** A gate built with the default options *)

Lemma fresh_tokens_live hp a n :
  (∀ r, a ≤ r < a + n → ∃ tok, hp !! r = Some tok ∧ isCanceled tok = false) →
  forallb (is_token hp) (Some <$> seq a n) = true
  ∧ live_refs hp (Some <$> seq a n) = seq a n.
Proof.
  revert a. induction n as [|n IH]; intros a Hall; [done|].
  destruct (Hall a) as (tok & Hr & Hcan); [lia|].
  destruct (IH (S a)) as (I1 & I2); [intros r Hr'; apply Hall; lia|].
  cbn. rewrite Hr, Hcan, I1, I2. split; [|done].
  apply andb_true_iff. split; [|done]. apply bool_decide_eq_true. eauto.
Qed.

Lemma run_options ops s : options (run ops s) = options s.
Proof.
  revert s. induction ops as [|op ops IH]; intros s; [done|].
  cbn [run fold_left]. unfold run in IH. by rewrite IH, step_options.
Qed.

(** X15: a gate constructed non-signaled with no bound on the queue and none
    on the release count (the defaults) keeps every waiter and releases them
    all in call order: after [n] calls of [wait] with a function, [set] runs
    the [n] callbacks in the order of the calls, empties the queue and leaves
    the gate signaled. *)
Theorem default_gate_releases_in_call_order
    (o : OptionsArg) (ws : list (nat * value)) :
  unbounded (extend defaultOptions o) →
  autoResetCount (extend defaultOptions o) = VNum PInf →
  fst (set (run (fn_waits ws) (ResetEvent false o))) = Return tt
  ∧ calls (snd (set (run (fn_waits ws) (ResetEvent false o))))
    = seq 0 (length ws)
  ∧ queue (snd (set (run (fn_waits ws) (ResetEvent false o)))) = []
  ∧ isSignaled (snd (set (run (fn_waits ws) (ResetEvent false o)))) = true.
Proof.
  intros Hu Hinf.
  destruct (waits_on_unbounded_gate (ResetEvent false o) ws eq_refl Hu)
    as (Hq & Hc & Hs & _ & Hnew).
  cbn [queue calls tokenId ResetEvent new_ResetEvent loaded m_tokenId m_calls]
    in Hq, Hc, Hnew. cbn [app] in Hq.
  destruct (fresh_tokens_live (heap (run (fn_waits ws) (ResetEvent false o)))
              0 (length ws) Hnew) as (Hok & Hlive).
  rewrite <- Hq in Hok, Hlive.
  destruct (set_spec _ Hs Hok) as (Hret & _ & _ & H).
  rewrite run_options in H. cbn [options ResetEvent new_ResetEvent] in H.
  rewrite Hinf, Hlive, Hc in H. cbn in H. done.
Qed.

Lemma default_gate_releases_in_call_order_witness :
  calls (snd (set (run (fn_waits [(5, VUndefined); (6, VNum (Fin 30)); (7, VUndefined)])
                       (ResetEvent false noOptions)))) = [0; 1; 2].
Proof.
  refine (proj1 (proj2 (default_gate_releases_in_call_order noOptions
    [(5, VUndefined); (6, VNum (Fin 30)); (7, VUndefined)] _ _))).
  - right. reflexivity.
  - reflexivity.
Defined.

(** ** The ['last'] strategy with a bound below 1 *)

(** X16: under the ['last'] strategy with a [maxQueueSize] of 0 or less, a
    [wait] on a non-signaled gate leaves only the token it has just queued:
    [reduceQueue] returns every older slot as removed, oldest first, and the
    queue has length 1. *)
Theorem last_policy_nonpositive_keeps_newest
    (s : state) (f : nat) (t : value) (z : Z) :
  isSignaled s = false →
  overflowStrategy (options s) = "last"%string →
  maxQueueSize (options s) = VNum (Fin z) →
  (z ≤ 0)%Z →
  reduceQueue (queue s ++ [Some (tokenId s)]) (options s)
  = ([Some (tokenId s)], queue s)
  ∧ queue (snd (wait (Fn f) t s)) = [Some (tokenId s)].
Proof.
  intros Hc Hs Hm Hz.
  assert (reduceQueue (queue s ++ [Some (tokenId s)]) (options s)
          = ([Some (tokenId s)], queue s)) as Hred.
  { unfold reduceQueue. rewrite Hm, Hs. cbn [Js.not_a_bound Js.to_number].
    replace (Js.gt (Js.len (queue s ++ [Some (tokenId s)])) (Fin z)) with true
      by (symmetry; apply Z.ltb_lt; rewrite length_app; cbn; lia).
    cbn. pop_simpl. rewrite pop_loop_fin by done.
    replace (Z.to_nat (z - 1)) with 0 by lia.
    by rewrite take_0, drop_0, app_nil_r. }
  split; [done|]. rewrite wait_queue. unfold queue_before_reduce.
  by rewrite Hc, Hred.
Qed.

Lemma last_policy_nonpositive_keeps_newest_witness :
  queue (snd (wait (Fn 9) VUndefined
    (closed_gate 1 (MkOptionsArg (Some (VNum (Fin 0))) (Some "last"%string) None))))
  = [Some 1].
Proof.
  refine (proj2 (last_policy_nonpositive_keeps_newest
    (closed_gate 1 (MkOptionsArg (Some (VNum (Fin 0))) (Some "last"%string) None))
    9 VUndefined 0 _ _ _ _)); [reflexivity | reflexivity | reflexivity | lia].
Defined.
